(** * A shallow embedding of the Deletable Bloom Filter (del-bf.h, del-bf.cpp)

    The filter object is a record; its member functions are computations in a
    state-and-failure monad over that record.  A computation that yields
    [None] stands for an execution with undefined behaviour in C++: an
    element access outside a [std::vector<bool>], a division or a remainder
    by zero.  Unsigned 32-bit arithmetic is written out with [uint32]. *)

From Stdlib Require Import ZArith List Lia Bool.
From Stdlib Require Import Strings.Byte.
From stdpp Require Import base list.

Open Scope Z_scope.

(** ** Unsigned 32-bit values *)

Definition uint32 (z : Z) : Z := z mod 2 ^ 32.

(** ** The hash collaborator

    [del-bf.h] includes [hash.h], which is not among the sources, and every
    operation calls [MurmurHash3_x86_32 (data, len, seed, &hash)].  The
    operations below take the hash as a parameter, so that the general
    theorems hold for any hash; the value it stores in the [uint32_t] out
    variable is [uint32 (hash32 data seed)]. *)

Class Hasher := hash32 : list byte -> Z -> Z.

(** The published MurmurHash3 x86_32 reference algorithm, the function the
    calls name; it is used only to evaluate concrete runs, and
    [murmur_vectors] below checks it on the reference test vectors. *)
Module Murmur.

Definition rotl32 (x r : Z) : Z :=
  uint32 (Z.lor (Z.shiftl x r) (Z.shiftr x (32 - r))).

Definition c1 : Z := 0xcc9e2d51.
Definition c2 : Z := 0x1b873593.

Definition scramble (k1 : Z) : Z :=
  uint32 (rotl32 (uint32 (k1 * c1)) 15 * c2).

Definition mix (h1 k1 : Z) : Z :=
  uint32 (rotl32 (Z.lxor h1 (scramble k1)) 13 * 5 + 0xe6546b64).

Definition byteZ (b : byte) : Z := Z.of_N (Byte.to_N b).

Definition getblock32 (b0 b1 b2 b3 : byte) : Z :=
  Z.lor (byteZ b0)
    (Z.lor (Z.shiftl (byteZ b1) 8)
       (Z.lor (Z.shiftl (byteZ b2) 16) (Z.shiftl (byteZ b3) 24))).

Definition tail (h1 : Z) (t : list byte) : Z :=
  match t with
  | [b0] => Z.lxor h1 (scramble (byteZ b0))
  | [b0; b1] =>
      Z.lxor h1 (scramble (Z.lxor (Z.shiftl (byteZ b1) 8) (byteZ b0)))
  | [b0; b1; b2] =>
      Z.lxor h1
        (scramble
           (Z.lxor (Z.lxor (Z.shiftl (byteZ b2) 16) (Z.shiftl (byteZ b1) 8))
              (byteZ b0)))
  | _ => h1
  end.

Fixpoint body (data : list byte) (h1 : Z) : Z :=
  match data with
  | b0 :: b1 :: b2 :: b3 :: rest => body rest (mix h1 (getblock32 b0 b1 b2 b3))
  | t => tail h1 t
  end.

Definition fmix32 (h : Z) : Z :=
  let h := Z.lxor h (Z.shiftr h 16) in
  let h := uint32 (h * 0x85ebca6b) in
  let h := Z.lxor h (Z.shiftr h 13) in
  let h := uint32 (h * 0xc2b2ae35) in
  Z.lxor h (Z.shiftr h 16).

Definition MurmurHash3_x86_32 (data : list byte) (seed : Z) : Z :=
  fmix32 (Z.lxor (body data (uint32 seed)) (Z.of_nat (length data))).

End Murmur.

Definition murmur : Hasher := Murmur.MurmurHash3_x86_32.

(** ** The filter object (del-bf.h) *)

Record DeletableBloomFilter : Type := mkDBF {
  buckets : list bool;      (* Filter data *)
  collisions : list bool;   (* Filter collision data *)
  m : Z;                    (* Filter size *)
  regionSize : Z;           (* Number of bits in a region *)
  k : Z;                    (* Number of hash functions *)
  count : Z                 (* Number of items in the filter *)
}.

Definition set_buckets (v : list bool) (f : DeletableBloomFilter) :=
  mkDBF v (collisions f) (m f) (regionSize f) (k f) (count f).
Definition set_collisions (v : list bool) (f : DeletableBloomFilter) :=
  mkDBF (buckets f) v (m f) (regionSize f) (k f) (count f).
Definition set_count (c : Z) (f : DeletableBloomFilter) :=
  mkDBF (buckets f) (collisions f) (m f) (regionSize f) (k f) c.

(** ** Element access of [std::vector<bool>]: undefined outside the vector *)

Definition vec_at (v : list bool) (i : Z) : option bool :=
  if decide (0 <= i) then v !! Z.to_nat i else None.

Definition vec_set (v : list bool) (i : Z) (b : bool) : option (list bool) :=
  if decide (0 <= i < Z.of_nat (length v))
  then Some (<[Z.to_nat i := b]> v) else None.

(** ** The monad of member functions *)

Definition M (A : Type) : Type :=
  DeletableBloomFilter -> option (A * DeletableBloomFilter).

Definition ret {A} (a : A) : M A := fun f => Some (a, f).
Definition bind {A B} (c : M A) (g : A -> M B) : M B :=
  fun f => match c f with Some (a, f') => g a f' | None => None end.
Definition undefined {A} : M A := fun _ => None.
Definition gets {A} (p : DeletableBloomFilter -> A) : M A :=
  fun f => Some (p f, f).
Definition modify (g : DeletableBloomFilter -> DeletableBloomFilter) : M unit :=
  fun f => Some (tt, g f).
Definition lift {A} (o : option A) : M A :=
  match o with Some a => ret a | None => undefined end.

Declare Scope dbf_scope.
Delimit Scope dbf_scope with dbf.
Notation "x <- c ;; g" := (bind c (fun x => g))
  (at level 100, c at next level, right associativity) : dbf_scope.
Notation "c ;;; g" := (bind c (fun _ => g))
  (at level 100, right associativity) : dbf_scope.
Open Scope dbf_scope.

(** [buckets[i]], [buckets[i] = b], [collisions[j]], [collisions[j] = b] *)
Definition read_bucket (i : Z) : M bool :=
  v <- gets buckets ;; lift (vec_at v i).
Definition write_bucket (i : Z) (b : bool) : M unit :=
  v <- gets buckets ;; v' <- lift (vec_set v i b) ;; modify (set_buckets v').
Definition read_collision (j : Z) : M bool :=
  v <- gets collisions ;; lift (vec_at v j).
Definition write_collision (j : Z) (b : bool) : M unit :=
  v <- gets collisions ;; v' <- lift (vec_set v j b) ;;
  modify (set_collisions v').

(** [for (uint i = 0; i < k; i++)]: the seeds visited, in order *)
Definition seeds_upto (kk : Z) : list Z := map Z.of_nat (seq 0 (Z.to_nat kk)).

(** A loop without early exit, threading the local variable [member]. *)
Fixpoint for_seeds {S} (l : list Z) (body : Z -> S -> M S) (s : S) : M S :=
  match l with
  | [] => ret s
  | i :: rest => s' <- body i s ;; for_seeds rest body s'
  end.

Section Operations.
Context {H : Hasher}.

(** [MurmurHash3_x86_32(data, len, i, &hash); hash %= m;] *)
Definition slot (f : DeletableBloomFilter) (data : list byte) (i : Z) : Z :=
  uint32 (hash32 data i) mod m f.

Definition hash_mod_m (data : list byte) (i : Z) : M Z :=
  fun f => if decide (m f = 0) then None else Some (slot f data i, f).

(** [hash / regionSize] *)
Definition region (f : DeletableBloomFilter) (h : Z) : Z := h / regionSize f.

Definition region_of (h : Z) : M Z :=
  fun f => if decide (regionSize f = 0) then None else Some (region f h, f).

Definition getCount : M Z := gets count.

Fixpoint test_loop (data : list byte) (l : list Z) : M bool :=
  match l with
  | [] => ret true
  | i :: rest =>
      h <- hash_mod_m data i ;;
      b <- read_bucket h ;;
      if b then test_loop data rest else ret false
  end.

Definition test (data : list byte) : M bool :=
  kk <- gets k ;; test_loop data (seeds_upto kk).

Definition add_body (data : list byte) (i : Z) (_ : unit) : M unit :=
  h <- hash_mod_m data i ;;
  b <- read_bucket h ;;
  if b then (j <- region_of h ;; write_collision j true)
  else write_bucket h true.

Definition add (data : list byte) : M unit :=
  kk <- gets k ;;
  for_seeds (seeds_upto kk) (add_body data) tt ;;;
  c <- gets count ;;
  modify (set_count (uint32 (c + 1))).

Definition testAndAdd_body (data : list byte) (i : Z) (member : bool) : M bool :=
  h <- hash_mod_m data i ;;
  b <- read_bucket h ;;
  member' <- (if b then (j <- region_of h ;; write_collision j true ;;; ret member)
              else ret false) ;;
  write_bucket h true ;;;
  ret member'.

Definition testAndAdd (data : list byte) : M bool :=
  kk <- gets k ;;
  member <- for_seeds (seeds_upto kk) (testAndAdd_body data) true ;;
  c <- gets count ;;
  modify (set_count (uint32 (c + 1))) ;;;
  ret member.

Definition scan_body (data : list byte) (i : Z) (member : bool) : M bool :=
  h <- hash_mod_m data i ;;
  b <- read_bucket h ;;
  ret (if b then member else false).

Definition remove_body (data : list byte) (i : Z) (_ : unit) : M unit :=
  h <- hash_mod_m data i ;;
  j <- region_of h ;;
  c <- read_collision j ;;
  if c then ret tt else write_bucket h false.

Definition testAndRemove (data : list byte) : M bool :=
  kk <- gets k ;;
  member <- for_seeds (seeds_upto kk) (scan_body data) true ;;
  (if member
   then for_seeds (seeds_upto kk) (remove_body data) tt ;;;
        c <- gets count ;;
        modify (set_count (uint32 (c - 1)))
   else ret tt) ;;;
  ret member.

Definition reset : M unit :=
  modify (fun f =>
    mkDBF (replicate (length (buckets f)) false)
          (replicate (length (collisions f)) false)
          (m f) (regionSize f) (k f) 0).

End Operations.

(** ** The constructor

    [optM] and [optK] are the values returned by the floating-point helpers
    [optimalM (n, fpRate)] and [optimalK (fpRate)].  The constructor assigns
    every member except [count], whose initial value is whatever the storage
    of the object held: [indeterminate].  [(optM - r) / r] with [r = 0] is a
    division by zero. *)
Definition construct (optM optK r indeterminate : Z)
  : option DeletableBloomFilter :=
  if decide (r = 0) then None
  else Some (mkDBF (replicate (Z.to_nat (uint32 (optM - r))) false)
                   (replicate (Z.to_nat r) false)
                   (uint32 (optM - r))
                   (uint32 (optM - r) / r)
                   optK
                   indeterminate).

(** The parameters the interface calls valid: [0 < r < optimalM], and a hash
    count of at least one, which [0 < fpRate < 1] gives. *)
Definition valid_sizing (optM optK r : Z) : Prop :=
  0 < r < optM /\ optM < 2 ^ 32 /\ 0 < optK < 2 ^ 32.

(** ** Sequences of calls on one filter *)

Inductive Op : Type :=
| Add (x : list byte)
| Test (x : list byte)
| TestAndAdd (x : list byte)
| TestAndRemove (x : list byte)
| Reset.

(** A call together with what it returned. *)
Inductive Event : Type :=
| EAdd (x : list byte)
| ETest (x : list byte) (b : bool)
| ETestAndAdd (x : list byte) (b : bool)
| ETestAndRemove (x : list byte) (b : bool)
| EReset.

Definition call {H : Hasher} (o : Op) : M Event :=
  match o with
  | Add x => add x ;;; ret (EAdd x)
  | Test x => b <- test x ;; ret (ETest x b)
  | TestAndAdd x => b <- testAndAdd x ;; ret (ETestAndAdd x b)
  | TestAndRemove x => b <- testAndRemove x ;; ret (ETestAndRemove x b)
  | Reset => reset ;;; ret EReset
  end.

Fixpoint run {H : Hasher} (ops : list Op) : M (list Event) :=
  match ops with
  | [] => ret []
  | o :: rest => e <- call o ;; es <- run rest ;; ret (e :: es)
  end.

(** 4-byte little-endian encoding of a [uint32_t], as test.cpp passes it. *)
Definition le32 (x : Z) : list byte :=
  map (fun i => match Byte.of_N (Z.to_N (Z.shiftr x (8 * i) mod 256)) with
                | Some b => b | None => x00 end) [0; 1; 2; 3].

(** ** Specification-level vocabulary *)

(** [touches f x h]: some seed below [k] sends [x] to membership index [h]. *)
Definition touches {H : Hasher} (f : DeletableBloomFilter) (x : list byte) (h : Z)
  : bool :=
  existsb (fun i => slot f x i =? h) (seeds_upto (k f)).

(** All membership bits of [x] for the seeds in [l] are set. *)
Definition all_set {H : Hasher} (f : DeletableBloomFilter) (x : list byte)
  (l : list Z) : bool :=
  forallb (fun i => bool_decide (vec_at (buckets f) (slot f x i) = Some true)) l.

#[global] Instance byte_eq_decision : EqDecision byte := Byte.byte_eq_dec.

(** The items a caller currently holds in the filter, with multiplicity:
    every [add] / [testAndAdd] puts one copy in, every [testAndRemove] that
    returned true takes one copy out, [reset] empties it. *)
Fixpoint remove_one (x : list byte) (S : list (list byte)) : list (list byte) :=
  match S with
  | [] => []
  | y :: S' => if decide (x = y) then S' else y :: remove_one x S'
  end.

Definition held_step (e : Event) (S : list (list byte)) : list (list byte) :=
  match e with
  | EAdd x | ETestAndAdd x _ => x :: S
  | ETestAndRemove x true => remove_one x S
  | ETestAndRemove _ false | ETest _ _ => S
  | EReset => []
  end.

Fixpoint held_after (log : list Event) (S : list (list byte))
  : list (list byte) :=
  match log with
  | [] => S
  | e :: rest => held_after rest (held_step e S)
  end.

(** Every removal that returned true took out an item that was held. *)
Fixpoint removals_held (log : list Event) (S : list (list byte)) : Prop :=
  match log with
  | [] => True
  | e :: rest =>
      match e with ETestAndRemove x true => In x S | _ => True end
      /\ removals_held rest (held_step e S)
  end.

(** How many held copies have [h] among their membership indices. *)
Fixpoint claims {H : Hasher} (f : DeletableBloomFilter) (S : list (list byte))
  (h : Z) : nat :=
  match S with
  | [] => 0
  | x :: S' => ((if touches f x h then 1 else 0) + claims f S' h)%nat
  end.

(** The bookkeeping that makes removal safe: every index a held item hashes
    to has its bit set, and an index that two held copies share lies in a
    region whose collision flag is set. *)
Definition covered {H : Hasher} (f : DeletableBloomFilter)
  (S : list (list byte)) : Prop :=
  forall h,
    ((1 <= claims f S h)%nat ->
       m f <> 0 /\ vec_at (buckets f) h = Some true) /\
    ((2 <= claims f S h)%nat ->
       vec_at (collisions f) (region f h) = Some true).

(** The item a call was about. *)
Definition event_item (e : Event) : option (list byte) :=
  match e with
  | EAdd x | ETest x _ | ETestAndAdd x _ | ETestAndRemove x _ => Some x
  | EReset => None
  end.

(** The [a] and [d] of count accounting. *)
Definition is_addition (e : Event) : bool :=
  match e with EAdd _ | ETestAndAdd _ _ => true | _ => false end.
Definition is_removal (e : Event) : bool :=
  match e with ETestAndRemove _ true => true | _ => false end.
Definition is_reset (e : Event) : bool :=
  match e with EReset => true | _ => false end.
Definition additions (log : list Event) : Z :=
  Z.of_nat (length (List.filter is_addition log)).
Definition removals (log : list Event) : Z :=
  Z.of_nat (length (List.filter is_removal log)).

(** What one call adds to the count. *)
Definition delta (e : Event) : Z :=
  (if is_addition e then 1 else 0) - (if is_removal e then 1 else 0).

(** Sizing invariants of a filter built from valid parameters. *)
Definition well_sized (f : DeletableBloomFilter) : Prop :=
  0 < m f /\ Z.of_nat (length (buckets f)) = m f /\ 0 < k f.

(** Every region index of the membership range is a valid collision slot. *)
Definition regions_cover (f : DeletableBloomFilter) : Prop :=
  0 < regionSize f /\ (m f - 1) / regionSize f < Z.of_nat (length (collisions f)).

(** The geometry under which no call has undefined behaviour. *)
Definition geometry_ok (f : DeletableBloomFilter) : Prop :=
  0 < m f /\ Z.of_nat (length (buckets f)) = m f /\ regions_cover f.

(** Members that no call changes. *)
Definition same_shape (f f' : DeletableBloomFilter) : Prop :=
  m f' = m f /\ regionSize f' = regionSize f /\ k f' = k f /\
  length (buckets f') = length (buckets f) /\
  length (collisions f') = length (collisions f).

(** Insertion only sets bits and flags; the count is left to the caller. *)
Definition grows (f f' : DeletableBloomFilter) : Prop :=
  same_shape f f' /\ count f' = count f /\
  (forall h, vec_at (buckets f) h = Some true ->
             vec_at (buckets f') h = Some true) /\
  (forall j, vec_at (collisions f) j = Some true ->
             vec_at (collisions f') j = Some true).

Arguments all_set : simpl never.
Arguments touches : simpl never.
Arguments slot : simpl never.
Arguments region : simpl never.

(** The membership indices of [x], one per seed. *)
Definition slots {H : Hasher} (f : DeletableBloomFilter) (x : list byte)
  : list Z :=
  map (slot f x) (seeds_upto (k f)).

(** Evaluating [collisions[h / regionSize]] is undefined: the division is by
    zero, or the region index is outside the flag vector. *)
Definition flag_lookup_undefined {H : Hasher} (f : DeletableBloomFilter)
  (h : Z) : Prop :=
  regionSize f = 0 \/ vec_at (collisions f) (region f h) = None.

(** ** Concrete filters *)

(** test.cpp: [DeletableBloomFilter dbf(128, 128, 0.1)], for which
    [optimalM] is 614 and [optimalK] is 4. *)
Definition test_cpp_filter (indeterminate : Z) : DeletableBloomFilter :=
  mkDBF (replicate 486 false) (replicate 128 false) 486 3 4 indeterminate.

(** [DeletableBloomFilter (4, 4, 0.25)]: [optimalM] is 12, [optimalK] is 2,
    and the 4 regions of width 2 cover the 8 membership bits exactly. *)
Definition small_filter : DeletableBloomFilter :=
  mkDBF (replicate 8 false) (replicate 4 false) 8 2 2 0.

(** [small_filter] after [add] of the little-endian bytes of 2 (slots 7 and
    4), and after a second such [add], which flags regions 3 and 2. *)
Definition small_one : DeletableBloomFilter :=
  mkDBF [false; false; false; false; true; false; false; true]
        (replicate 4 false) 8 2 2 1.

Definition small_two : DeletableBloomFilter :=
  mkDBF [false; false; false; false; true; false; false; true]
        [false; false; true; true] 8 2 2 2.

(** * Properties *)

Example murmur_vectors :
  Murmur.MurmurHash3_x86_32 [] 0 = 0 /\
  Murmur.MurmurHash3_x86_32 [] 1 = 0x514E28B7 /\
  Murmur.MurmurHash3_x86_32 [x21; x43; x65; x87] 0 = 0xF55B516B /\
  Murmur.MurmurHash3_x86_32 [x21; x43; x65] 0 = 0x7E4A8634 /\
  Murmur.MurmurHash3_x86_32 [x21; x43] 0 = 0xA0F7B07A /\
  Murmur.MurmurHash3_x86_32 [x21] 0 = 0x72661CF4.
Proof. vm_compute. repeat split. Qed.

Example test_cpp_filter_constructed g :
  construct 614 4 128 g = Some (test_cpp_filter g).
Proof. reflexivity. Qed.

Example small_filter_constructed : construct 12 2 4 0 = Some small_filter.
Proof. reflexivity. Qed.

(** ** Vector access *)

Lemma vec_at_Some_range v i b :
  vec_at v i = Some b -> 0 <= i < Z.of_nat (length v).
Proof.
  unfold vec_at. destruct (decide (0 <= i)); [|discriminate].
  intros E. apply lookup_lt_Some in E. lia.
Qed.

Lemma vec_at_in_range v i :
  0 <= i < Z.of_nat (length v) -> exists b, vec_at v i = Some b.
Proof.
  intros Hi. unfold vec_at. destruct (decide (0 <= i)); [|lia].
  destruct (lookup_lt_is_Some_2 v (Z.to_nat i)) as [b E]; [lia|]. eauto.
Qed.

Lemma vec_at_set_eq v i b v' :
  vec_set v i b = Some v' -> vec_at v' i = Some b.
Proof.
  unfold vec_set, vec_at. destruct (decide _) as [Hi|]; [|discriminate].
  intros [= <-]. destruct (decide (0 <= i)); [|lia].
  apply list_lookup_insert_eq. lia.
Qed.

Lemma vec_at_set_ne v i b v' j :
  vec_set v i b = Some v' -> j <> i -> vec_at v' j = vec_at v j.
Proof.
  unfold vec_set, vec_at. destruct (decide _) as [Hi|]; [|discriminate].
  intros [= <-] Hne. destruct (decide (0 <= j)); [|reflexivity].
  apply list_lookup_insert_ne. lia.
Qed.

Lemma vec_set_length v i b v' :
  vec_set v i b = Some v' -> length v' = length v.
Proof.
  unfold vec_set. destruct (decide _); [|discriminate].
  intros [= <-]. apply length_insert.
Qed.

Lemma vec_set_same v i b :
  vec_at v i = Some b -> vec_set v i b = Some v.
Proof.
  intros E. pose proof (vec_at_Some_range _ _ _ E) as Hr.
  unfold vec_set, vec_at in *. destruct (decide (0 <= i)); [|lia].
  destruct (decide _); [|lia]. f_equal. by apply list_insert_id.
Qed.

Lemma vec_set_mono v i v' j :
  vec_set v i true = Some v' -> vec_at v j = Some true -> vec_at v' j = Some true.
Proof.
  intros Hs Hj. destruct (decide (j = i)) as [->|Hne].
  - eapply vec_at_set_eq; eauto.
  - erewrite vec_at_set_ne; eauto.
Qed.

Lemma vec_at_replicate_false n i :
  0 <= i < Z.of_nat n -> vec_at (replicate n false) i = Some false.
Proof.
  intros Hi. unfold vec_at. destruct (decide (0 <= i)); [|lia].
  apply lookup_replicate. split; [reflexivity|lia].
Qed.

Lemma vec_at_replicate_not_true n i :
  vec_at (replicate n false) i <> Some true.
Proof.
  unfold vec_at. destruct (decide (0 <= i)); [|discriminate].
  intros E. apply lookup_replicate in E. destruct E; discriminate.
Qed.

(** ** Running a member function: inversion of the monad's primitives *)

Lemma bind_Some {A B} (c : M A) (g : A -> M B) f b f2 :
  bind c g f = Some (b, f2) <->
  exists a f1, c f = Some (a, f1) /\ g a f1 = Some (b, f2).
Proof.
  unfold bind. split.
  - destruct (c f) as [[a f1]|]; [|discriminate]. eauto.
  - intros (a & f1 & -> & E). exact E.
Qed.

Lemma bind_None_l {A B} (c : M A) (g : A -> M B) f :
  c f = None -> bind c g f = None.
Proof. unfold bind. intros ->. reflexivity. Qed.

Lemma bind_step {A B} (c : M A) (g : A -> M B) f a f1 :
  c f = Some (a, f1) -> bind c g f = g a f1.
Proof. unfold bind. intros ->. reflexivity. Qed.

Lemma read_bucket_Some i f b f' :
  read_bucket i f = Some (b, f') <-> f' = f /\ vec_at (buckets f) i = Some b.
Proof.
  unfold read_bucket, bind, gets, lift, ret, undefined.
  destruct (vec_at (buckets f) i); split; intros E; try discriminate.
  - inversion E; auto.
  - destruct E as [-> [= ->]]. reflexivity.
  - destruct E; discriminate.
Qed.

Lemma read_collision_Some j f b f' :
  read_collision j f = Some (b, f') <->
  f' = f /\ vec_at (collisions f) j = Some b.
Proof.
  unfold read_collision, bind, gets, lift, ret, undefined.
  destruct (vec_at (collisions f) j); split; intros E; try discriminate.
  - inversion E; auto.
  - destruct E as [-> [= ->]]. reflexivity.
  - destruct E; discriminate.
Qed.

Lemma write_bucket_Some i b f u f' :
  write_bucket i b f = Some (u, f') <->
  exists v', vec_set (buckets f) i b = Some v' /\ f' = set_buckets v' f.
Proof.
  unfold write_bucket, bind, gets, lift, ret, undefined, modify.
  destruct (vec_set (buckets f) i b) as [v'|]; split; intros E.
  - inversion E. eauto.
  - destruct E as (? & [= <-] & ->). by destruct u.
  - discriminate.
  - destruct E as (? & ? & _). discriminate.
Qed.

Lemma write_collision_Some j b f u f' :
  write_collision j b f = Some (u, f') <->
  exists v', vec_set (collisions f) j b = Some v' /\ f' = set_collisions v' f.
Proof.
  unfold write_collision, bind, gets, lift, ret, undefined, modify.
  destruct (vec_set (collisions f) j b) as [v'|]; split; intros E.
  - inversion E. eauto.
  - destruct E as (? & [= <-] & ->). by destruct u.
  - discriminate.
  - destruct E as (? & ? & _). discriminate.
Qed.

Section Proofs.
Context {H : Hasher}.

Lemma hash_mod_m_Some x i f h f' :
  hash_mod_m x i f = Some (h, f') <-> m f <> 0 /\ h = slot f x i /\ f' = f.
Proof.
  unfold hash_mod_m. destruct (decide (m f = 0)); split; intros E.
  - discriminate.
  - destruct E as [? _]. contradiction.
  - inversion E; subst. auto.
  - destruct E as (_ & -> & ->). reflexivity.
Qed.

Lemma region_of_Some h f j f' :
  region_of h f = Some (j, f') <->
  regionSize f <> 0 /\ j = region f h /\ f' = f.
Proof.
  unfold region_of. destruct (decide (regionSize f = 0)); split; intros E.
  - discriminate.
  - destruct E as [? _]. contradiction.
  - inversion E; subst. auto.
  - destruct E as (_ & -> & ->). reflexivity.
Qed.

(** Peel the binds of a successful run, primitive by primitive. *)
Ltac run_inv :=
  repeat match goal with
  | E : bind _ _ _ = Some _ |- _ =>
      apply bind_Some in E; destruct E as (? & ? & ? & E)
  | E : ret _ _ = Some _ |- _ => inversion E; subst; clear E
  | E : gets _ _ = Some _ |- _ => inversion E; subst; clear E
  | E : modify _ _ = Some _ |- _ => inversion E; subst; clear E
  | E : hash_mod_m _ _ _ = Some _ |- _ =>
      apply hash_mod_m_Some in E; destruct E as (? & ? & ?); subst
  | E : region_of _ _ = Some _ |- _ =>
      apply region_of_Some in E; destruct E as (? & ? & ?); subst
  | E : read_bucket _ _ = Some _ |- _ =>
      apply read_bucket_Some in E; destruct E as (? & ?); subst
  | E : read_collision _ _ = Some _ |- _ =>
      apply read_collision_Some in E; destruct E as (? & ?); subst
  | E : write_bucket _ _ _ = Some _ |- _ =>
      apply write_bucket_Some in E; destruct E as (? & ? & ?); subst
  | E : write_collision _ _ _ = Some _ |- _ =>
      apply write_collision_Some in E; destruct E as (? & ? & ?); subst
  end.

(** ** What no call changes *)

Lemma same_shape_refl f : same_shape f f.
Proof. repeat split. Qed.

Lemma same_shape_trans f1 f2 f3 :
  same_shape f1 f2 -> same_shape f2 f3 -> same_shape f1 f3.
Proof. unfold same_shape. intuition congruence. Qed.

Lemma slot_shape f f' x i : m f' = m f -> slot f' x i = slot f x i.
Proof. unfold slot. intros ->. reflexivity. Qed.

Lemma region_shape f f' h :
  regionSize f' = regionSize f -> region f' h = region f h.
Proof. unfold region. intros ->. reflexivity. Qed.

Lemma touches_shape f f' x h :
  same_shape f f' -> touches f' x h = touches f x h.
Proof.
  intros (Hm & _ & Hk & _). unfold touches, slot. by rewrite Hk, Hm.
Qed.

Lemma claims_shape f f' S h :
  same_shape f f' -> claims f' S h = claims f S h.
Proof.
  intros Hs. induction S as [|x S IH]; simpl; [reflexivity|].
  by rewrite IH, (touches_shape f f').
Qed.

Lemma touches_iff f x h :
  touches f x h = true <-> exists i, In i (seeds_upto (k f)) /\ slot f x i = h.
Proof.
  unfold touches. rewrite existsb_exists. split.
  - intros (i & Hi & E). exists i. split; [exact Hi|lia].
  - intros (i & Hi & E). exists i. split; [exact Hi|lia].
Qed.

Lemma in_seeds_upto kk i : In i (seeds_upto kk) <-> 0 <= i < kk.
Proof.
  unfold seeds_upto. rewrite in_map_iff. split.
  - intros (n & <- & Hn). apply in_seq in Hn. lia.
  - intros Hi. exists (Z.to_nat i). split; [lia|]. apply in_seq. lia.
Qed.

(** ** Monotone evolution of the two bit vectors under insertion *)

Lemma grows_refl f : grows f f.
Proof. repeat split; auto. Qed.

Lemma grows_trans f1 f2 f3 : grows f1 f2 -> grows f2 f3 -> grows f1 f3.
Proof.
  intros (S1 & C1 & B1 & F1) (S2 & C2 & B2 & F2).
  split; [eapply same_shape_trans; eauto|].
  split; [congruence|]. split; auto.
Qed.

Lemma add_body_spec x i f u f1 :
  add_body x i tt f = Some (u, f1) ->
  m f <> 0 /\
  ((vec_at (buckets f) (slot f x i) = Some true /\
    exists c', vec_set (collisions f) (region f (slot f x i)) true = Some c'
               /\ f1 = set_collisions c' f) \/
   (vec_at (buckets f) (slot f x i) = Some false /\
    exists v', vec_set (buckets f) (slot f x i) true = Some v'
               /\ f1 = set_buckets v' f)).
Proof.
  unfold add_body. intros E. run_inv.
  match goal with b : bool |- _ => destruct b end; run_inv; eauto 10.
Qed.

Lemma add_body_grows x i f u f1 :
  add_body x i tt f = Some (u, f1) ->
  grows f f1 /\ vec_at (buckets f1) (slot f x i) = Some true /\
  (vec_at (buckets f) (slot f x i) = Some true ->
   vec_at (collisions f1) (region f (slot f x i)) = Some true).
Proof.
  intros E. apply add_body_spec in E.
  destruct E as (_ & [(Hb & c' & Hc & ->) | (Hb & v' & Hv & ->)]).
  - split; [|split].
    + repeat split; simpl; auto.
      * eapply vec_set_length; eauto.
      * intros j. eapply vec_set_mono; eauto.
    + exact Hb.
    + intros _. simpl. eapply vec_at_set_eq; eauto.
  - split; [|split].
    + repeat split; simpl; auto.
      * eapply vec_set_length; eauto.
      * intros j. eapply vec_set_mono; eauto.
    + simpl. eapply vec_at_set_eq; eauto.
    + congruence.
Qed.

Lemma add_loop_spec x l : forall f u f',
  for_seeds l (add_body x) tt f = Some (u, f') ->
  grows f f' /\
  forall i, In i l ->
    m f <> 0 /\
    (exists b, vec_at (buckets f) (slot f x i) = Some b) /\
    vec_at (buckets f') (slot f x i) = Some true /\
    (vec_at (buckets f) (slot f x i) = Some true ->
     vec_at (collisions f') (region f (slot f x i)) = Some true).
Proof.
  induction l as [|i0 l IH]; simpl; intros f u f' E.
  - run_inv. split; [apply grows_refl|]. intros i [].
  - apply bind_Some in E. destruct E as ([] & f1 & E1 & E2).
    pose proof (add_body_spec _ _ _ _ _ E1) as (Hm & Hcase).
    apply add_body_grows in E1. destruct E1 as (G1 & B1 & C1).
    apply IH in E2. destruct E2 as (G2 & All).
    pose proof G1 as ((Sm & Sr & Sk & Sb & Sc) & _ & Bm & Fm).
    pose proof G2 as (_ & _ & Bm2 & Fm2).
    split; [eapply grows_trans; eauto|].
    intros i [<-|Hi].
    + split; [exact Hm|]. split; [|split].
      * destruct Hcase as [(? & _)|(? & _)]; eauto.
      * auto.
      * intros Hb. auto.
    + destruct (All i Hi) as (_ & (b & Hb) & Hset & Hflag).
      rewrite (slot_shape f f1) in * by exact Sm.
      rewrite (region_shape f f1) in * by exact Sr.
      split; [exact Hm|]. split; [|split].
      * apply vec_at_Some_range in Hb. rewrite Sb in Hb.
        by apply vec_at_in_range.
      * exact Hset.
      * intros Hb'. auto.
Qed.

(** ** The read-only loops: [test] and the first pass of [testAndRemove] *)

Lemma all_set_nil f x : all_set f x [] = true.
Proof. reflexivity. Qed.

Lemma all_set_cons f x i l :
  all_set f x (i :: l) =
  bool_decide (vec_at (buckets f) (slot f x i) = Some true) && all_set f x l.
Proof. reflexivity. Qed.

Lemma all_set_true f x l :
  all_set f x l = true <->
  forall i, In i l -> vec_at (buckets f) (slot f x i) = Some true.
Proof.
  unfold all_set. rewrite forallb_forall. split; intros E i Hi.
  - specialize (E i Hi). by apply bool_decide_eq_true in E.
  - apply bool_decide_eq_true. auto.
Qed.

Lemma all_set_buckets f f' x l :
  m f' = m f -> buckets f' = buckets f -> all_set f' x l = all_set f x l.
Proof. unfold all_set, slot. by intros -> ->. Qed.

Lemma bit_decide v h b :
  vec_at v h = Some b -> bool_decide (vec_at v h = Some true) = b.
Proof.
  intros ->. destruct b.
  - by apply bool_decide_eq_true.
  - by apply bool_decide_eq_false.
Qed.

Lemma test_loop_Some x l : forall f b f',
  test_loop x l f = Some (b, f') -> f' = f /\ b = all_set f x l.
Proof.
  induction l as [|i l IH]; simpl; intros f b f' E.
  - run_inv. auto.
  - run_inv. rewrite all_set_cons.
    match goal with E : vec_at _ _ = Some ?c |- _ =>
      rewrite (bit_decide _ _ _ E); destruct c end.
    + by apply IH.
    + run_inv. auto.
Qed.

Lemma test_loop_defined x l f :
  (forall i, In i l ->
     m f <> 0 /\ exists b, vec_at (buckets f) (slot f x i) = Some b) ->
  test_loop x l f = Some (all_set f x l, f).
Proof.
  induction l as [|i l IH]; simpl; intros D; [reflexivity|].
  destruct (D i) as (Hm & b & Hb); [by left|].
  rewrite (bind_step _ _ f (slot f x i) f)
    by (apply hash_mod_m_Some; auto).
  rewrite (bind_step _ _ f b f) by (apply read_bucket_Some; auto).
  rewrite all_set_cons, (bit_decide _ _ _ Hb). destruct b.
  - apply IH. intros j Hj. apply D. by right.
  - reflexivity.
Qed.

Lemma scan_loop_Some x l : forall mem f b f',
  for_seeds l (scan_body x) mem f = Some (b, f') ->
  f' = f /\ b = mem && all_set f x l /\
  forall i, In i l ->
    m f <> 0 /\ exists c, vec_at (buckets f) (slot f x i) = Some c.
Proof.
  induction l as [|i l IH]; simpl; intros mem f b f' E.
  - run_inv. rewrite all_set_nil, andb_true_r.
    split; [reflexivity|]. split; [reflexivity|]. intros ? [].
  - unfold scan_body at 1 in E. run_inv.
    match goal with E : for_seeds _ _ _ _ = Some _ |- _ =>
      apply IH in E; destruct E as (-> & -> & D) end.
    rewrite all_set_cons.
    match goal with E : vec_at _ _ = Some ?c |- _ =>
      rewrite (bit_decide _ _ _ E); pose proof E as Hb end.
    split; [reflexivity|]. split.
    + match goal with |- (if ?c then _ else _) && _ = _ => destruct c end;
        simpl; [reflexivity|by rewrite andb_false_r].
    + intros j [<-|Hj]; eauto.
Qed.

Lemma scan_loop_defined x l : forall mem f,
  (forall i, In i l ->
     m f <> 0 /\ exists b, vec_at (buckets f) (slot f x i) = Some b) ->
  for_seeds l (scan_body x) mem f = Some (mem && all_set f x l, f).
Proof.
  induction l as [|i l IH]; simpl; intros mem f D.
  - by rewrite all_set_nil, andb_true_r.
  - destruct (D i) as (Hm & b & Hb); [by left|].
    unfold scan_body at 1.
    rewrite (bind_step _ _ f (if b then mem else false) f).
    + rewrite IH by (intros j Hj; apply D; by right).
      rewrite all_set_cons, (bit_decide _ _ _ Hb).
      destruct b; simpl; [reflexivity|by rewrite andb_false_r].
    + rewrite (bind_step _ _ f (slot f x i) f)
        by (apply hash_mod_m_Some; auto).
      by rewrite (bind_step _ _ f b f) by (apply read_bucket_Some; auto).
Qed.

(** ** [testAndAdd] walks the same states as [add] *)

Lemma set_buckets_same f : set_buckets (buckets f) f = f.
Proof. by destruct f. Qed.

Lemma testAndAdd_body_as_add x i mem f :
  testAndAdd_body x i mem f =
  match add_body x i tt f with
  | Some (_, f1) =>
      Some (mem && bool_decide (vec_at (buckets f) (slot f x i) = Some true), f1)
  | None => None
  end.
Proof.
  cbv [testAndAdd_body add_body bind hash_mod_m read_bucket region_of
       write_collision write_bucket gets lift ret undefined modify].
  destruct (decide (m f = 0)); [reflexivity|].
  destruct (vec_at (buckets f) (slot f x i)) as [[|]|] eqn:Hb.
  - destruct (decide (regionSize f = 0)); [reflexivity|].
    destruct (vec_set (collisions f) _ true) as [c'|]; [|reflexivity].
    cbn [buckets set_collisions].
    rewrite (vec_set_same _ _ _ Hb), (bool_decide_eq_true_2 _ eq_refl).
    rewrite andb_true_r. by destruct f.
  - destruct (vec_set (buckets f) _ true) as [v'|]; [|reflexivity].
    rewrite bool_decide_eq_false_2 by congruence. by rewrite andb_false_r.
  - reflexivity.
Qed.

Lemma testAndAdd_loop_as_add x l : forall mem f,
  for_seeds l (testAndAdd_body x) mem f =
  match for_seeds l (add_body x) tt f with
  | Some (_, f') => Some (mem && all_set f x l, f')
  | None => None
  end.
Proof.
  induction l as [|i l IH]; simpl; intros mem f.
  - unfold ret. by rewrite all_set_nil, andb_true_r.
  - unfold bind at 1 2. rewrite testAndAdd_body_as_add.
    destruct (add_body x i tt f) as [[[] f1]|] eqn:E1; [|reflexivity].
    rewrite IH. rewrite all_set_cons.
    destruct (for_seeds l (add_body x) tt f1) as [[[] f']|]; [|reflexivity].
    apply add_body_spec in E1.
    destruct E1 as (_ & [(Hb & c' & _ & ->)|(Hb & v' & _ & ->)]).
    + rewrite (bit_decide _ _ _ Hb), andb_true_r, andb_true_l.
      by rewrite (all_set_buckets f (set_collisions c' f)).
    + rewrite (bit_decide _ _ _ Hb), andb_false_r. simpl.
      by rewrite andb_false_r.
Qed.

(** ** The removal pass of [testAndRemove] *)

Lemma remove_body_spec x i f u f1 :
  remove_body x i tt f = Some (u, f1) ->
  (vec_at (collisions f) (region f (slot f x i)) = Some true /\ f1 = f) \/
  (vec_at (collisions f) (region f (slot f x i)) = Some false /\
   exists v', vec_set (buckets f) (slot f x i) false = Some v'
              /\ f1 = set_buckets v' f).
Proof.
  unfold remove_body. intros E. run_inv.
  match goal with b : bool |- _ => destruct b end; run_inv; eauto 10.
Qed.

Lemma remove_loop_spec x l : forall f u f',
  for_seeds l (remove_body x) tt f = Some (u, f') ->
  same_shape f f' /\ collisions f' = collisions f /\ count f' = count f /\
  forall h, vec_at (buckets f) h = Some true ->
    vec_at (buckets f') h = Some true \/
    (vec_at (collisions f) (region f h) = Some false /\
     exists i, In i l /\ slot f x i = h).
Proof.
  induction l as [|i0 l IH]; simpl; intros f u f' E.
  - run_inv. repeat split; auto.
  - apply bind_Some in E. destruct E as ([] & f1 & E1 & E2).
    apply remove_body_spec in E1. apply IH in E2.
    destruct E2 as (S2 & C2 & N2 & B2).
    destruct E1 as [(Hc & ->)|(Hc & v' & Hv & ->)].
    + split; [exact S2|]. split; [exact C2|]. split; [exact N2|].
      intros h Hh. destruct (B2 h Hh) as [?|(? & i & ? & ?)]; eauto 6.
    + destruct S2 as (Sm & Sr & Sk & Sb & Sc). simpl in *.
      split; [|split; [exact C2|split; [exact N2|]]].
      * repeat split; auto. rewrite Sb. eapply vec_set_length; eauto.
      * intros h Hh. destruct (decide (h = slot f x i0)) as [->|Hne].
        { right. eauto. }
        assert (Hh1 : vec_at v' h = Some true)
          by (erewrite vec_at_set_ne; eauto).
        destruct (B2 h Hh1) as [?|(Hf & i & Hi & Hs)]; [by left|].
        right. split; [exact Hf|]. exists i. split; [by right|exact Hs].
Qed.

(** ** The member functions as a whole *)

Lemma add_unfold x f :
  add x f =
  match for_seeds (seeds_upto (k f)) (add_body x) tt f with
  | Some (_, f1) => Some (tt, set_count (uint32 (count f1 + 1)) f1)
  | None => None
  end.
Proof.
  unfold add, bind, gets, modify.
  by destruct (for_seeds _ _ _ _) as [[[] ?]|].
Qed.

Lemma testAndAdd_unfold x f :
  testAndAdd x f =
  match for_seeds (seeds_upto (k f)) (testAndAdd_body x) true f with
  | Some (member, f1) => Some (member, set_count (uint32 (count f1 + 1)) f1)
  | None => None
  end.
Proof.
  unfold testAndAdd, bind, gets, modify, ret.
  by destruct (for_seeds _ _ _ _) as [[? ?]|].
Qed.

Lemma testAndRemove_unfold x f :
  testAndRemove x f =
  match for_seeds (seeds_upto (k f)) (scan_body x) true f with
  | Some (true, f0) =>
      match for_seeds (seeds_upto (k f)) (remove_body x) tt f0 with
      | Some (_, f1) => Some (true, set_count (uint32 (count f1 - 1)) f1)
      | None => None
      end
  | Some (false, f0) => Some (false, f0)
  | None => None
  end.
Proof.
  unfold testAndRemove, bind, gets, modify, ret.
  destruct (for_seeds _ (scan_body x) _ _) as [[[|] f0]|]; try reflexivity.
  by destruct (for_seeds _ (remove_body x) _ _) as [[[] ?]|].
Qed.

Lemma test_effect x f b f' :
  test x f = Some (b, f') -> f' = f /\ b = all_set f x (seeds_upto (k f)).
Proof. unfold test. intros E. run_inv. by apply test_loop_Some. Qed.

Lemma add_effect x f u f' :
  add x f = Some (u, f') ->
  same_shape f f' /\ count f' = uint32 (count f + 1) /\
  (forall h, vec_at (buckets f) h = Some true ->
             vec_at (buckets f') h = Some true) /\
  (forall j, vec_at (collisions f) j = Some true ->
             vec_at (collisions f') j = Some true) /\
  (forall i, In i (seeds_upto (k f)) ->
     m f <> 0 /\
     vec_at (buckets f') (slot f x i) = Some true /\
     (vec_at (buckets f) (slot f x i) = Some true ->
      vec_at (collisions f') (region f (slot f x i)) = Some true)).
Proof.
  rewrite add_unfold.
  destruct (for_seeds _ _ _ _) as [[[] f1]|] eqn:E; [|discriminate].
  intros E'. inversion E'; subst; clear E'. apply add_loop_spec in E.
  destruct E as ((Sh & Cn & Bm & Fm) & All). simpl.
  split; [exact Sh|]. split; [by rewrite Cn|]. split; [exact Bm|].
  split; [exact Fm|]. intros i Hi. destruct (All i Hi) as (? & _ & ? & ?).
  auto.
Qed.

Lemma testAndAdd_as_add x f :
  testAndAdd x f =
  match add x f with
  | Some (_, f') => Some (all_set f x (seeds_upto (k f)), f')
  | None => None
  end.
Proof.
  rewrite testAndAdd_unfold, add_unfold, testAndAdd_loop_as_add.
  by destruct (for_seeds _ _ _ _) as [[[] f1]|].
Qed.

Lemma add_defines_test x f u f' :
  add x f = Some (u, f') ->
  test x f = Some (all_set f x (seeds_upto (k f)), f).
Proof.
  rewrite add_unfold.
  destruct (for_seeds _ _ _ _) as [[[] f1]|] eqn:E; [|discriminate].
  intros _. apply add_loop_spec in E. destruct E as (_ & All).
  unfold test, bind, gets. apply test_loop_defined.
  intros i Hi. destruct (All i Hi) as (? & ? & _). auto.
Qed.

Lemma testAndRemove_effect x f b f' :
  testAndRemove x f = Some (b, f') ->
  b = all_set f x (seeds_upto (k f)) /\
  if b then
    same_shape f f' /\ collisions f' = collisions f /\
    count f' = uint32 (count f - 1) /\
    forall h, vec_at (buckets f) h = Some true ->
      vec_at (buckets f') h = Some true \/
      (vec_at (collisions f) (region f h) = Some false /\
       touches f x h = true)
  else f' = f.
Proof.
  rewrite testAndRemove_unfold.
  destruct (for_seeds _ (scan_body x) _ _) as [[mem f0]|] eqn:E1;
    [|discriminate].
  apply scan_loop_Some in E1. destruct E1 as (-> & Hmem & _).
  rewrite andb_true_l in Hmem. destruct mem.
  - destruct (for_seeds _ (remove_body x) _ _) as [[[] f1]|] eqn:E2;
      [|discriminate].
    intros E'. inversion E'; subst; clear E'. split; [exact Hmem|].
    apply remove_loop_spec in E2. destruct E2 as (Sh & Cf & Cn & Bs). simpl.
    split; [exact Sh|]. split; [exact Cf|]. split; [by rewrite Cn|].
    intros h Hh. destruct (Bs h Hh) as [?|(? & ?)]; [by left|].
    right. split; [assumption|]. by apply touches_iff.
  - intros E'. inversion E'; subst; clear E'. auto.
Qed.

Lemma reset_effect f :
  reset f = Some (tt, mkDBF (replicate (length (buckets f)) false)
                            (replicate (length (collisions f)) false)
                            (m f) (regionSize f) (k f) 0).
Proof. reflexivity. Qed.

Lemma testAndAdd_effect x f b f' :
  testAndAdd x f = Some (b, f') ->
  b = all_set f x (seeds_upto (k f)) /\ add x f = Some (tt, f').
Proof.
  rewrite testAndAdd_as_add.
  destruct (add x f) as [[[] f1]|]; [|discriminate].
  intros E. inversion E; subst. auto.
Qed.

Lemma call_same_shape o f e f' : call o f = Some (e, f') -> same_shape f f'.
Proof.
  destruct o as [x|x|x|x|]; simpl; intros E;
    apply bind_Some in E; destruct E as (r & f1 & E & Er);
    inversion Er; subst; clear Er.
  - apply add_effect in E. tauto.
  - apply test_effect in E. destruct E as [-> _]. apply same_shape_refl.
  - apply testAndAdd_effect in E. destruct E as [_ E].
    apply add_effect in E. tauto.
  - apply testAndRemove_effect in E. destruct E as [_ E]. destruct r.
    + tauto.
    + subst. apply same_shape_refl.
  - rewrite reset_effect in E. inversion E; subst.
    repeat split; simpl; by rewrite ?length_replicate.
Qed.

Lemma run_same_shape ops : forall f log f',
  run ops f = Some (log, f') -> same_shape f f'.
Proof.
  induction ops as [|o ops IH]; simpl; intros f log f' E; run_inv.
  - apply same_shape_refl.
  - eapply same_shape_trans; [eapply call_same_shape|eapply IH]; eauto.
Qed.

(** ** Sizing *)

Lemma slot_range f x i : 0 < m f -> 0 <= slot f x i < m f.
Proof. intros Hm. unfold slot. by apply Z.mod_pos_bound. Qed.

Lemma well_sized_shape f f' : same_shape f f' -> well_sized f -> well_sized f'.
Proof.
  intros (Sm & _ & Sk & Sb & _) (Hm & Hl & Hk). unfold well_sized.
  rewrite Sm, Sk, Sb. auto.
Qed.

Lemma well_sized_defined f x i :
  well_sized f ->
  m f <> 0 /\ exists b, vec_at (buckets f) (slot f x i) = Some b.
Proof.
  intros (Hm & Hl & _). split; [lia|].
  apply vec_at_in_range. rewrite Hl. by apply slot_range.
Qed.

Lemma construct_well_sized optM optK r g f :
  valid_sizing optM optK r -> construct optM optK r g = Some f ->
  well_sized f.
Proof.
  intros (Hr & HM & HK). unfold construct.
  destruct (decide (r = 0)); [lia|]. intros [= <-].
  assert (Hu : uint32 (optM - r) = optM - r)
    by (unfold uint32; apply Z.mod_small; lia).
  unfold well_sized. simpl. rewrite Hu, length_replicate. lia.
Qed.

Lemma all_set_false f x l i :
  In i l -> vec_at (buckets f) (slot f x i) = Some false ->
  all_set f x l = false.
Proof.
  intros Hi Hb. destruct (all_set f x l) eqn:E; [|reflexivity].
  rewrite all_set_true in E. specialize (E i Hi). congruence.
Qed.

Lemma test_after_add x f u f' :
  add x f = Some (u, f') -> test x f' = Some (true, f').
Proof.
  intros E. apply add_effect in E.
  destruct E as ((Sm & _ & Sk & _) & _ & _ & _ & All).
  assert (D : forall i, In i (seeds_upto (k f')) ->
            m f' <> 0 /\ vec_at (buckets f') (slot f' x i) = Some true).
  { intros i Hi. rewrite Sk in Hi. rewrite (slot_shape f f'), Sm by exact Sm.
    destruct (All i Hi) as (? & ? & _). auto. }
  unfold test, bind, gets. rewrite test_loop_defined.
  - f_equal. f_equal. apply all_set_true. intros i Hi. by apply D.
  - intros i Hi. destruct (D i Hi). eauto.
Qed.

(** ** The claims about single calls *)

(** C9: [test] has no side effects: whenever a call to [test] returns, the
    filter object is the one it was called on; its membership bits, its
    collision flags and its count are unchanged. *)
Theorem C9_test_has_no_side_effects x f b f' :
  test x f = Some (b, f') ->
  f' = f /\ buckets f' = buckets f /\ collisions f' = collisions f /\
  count f' = count f.
Proof. intros E. apply test_effect in E. destruct E as [-> _]. auto. Qed.

(** C6: atomicity of failed removal: on a filter whose membership vector has
    its [m > 0] bits, if one of the [k] membership bits of [x] is unset then
    [testAndRemove x] returns false and the filter object is unchanged:
    membership bits, collision flags and count. *)
Theorem C6_failed_removal_changes_nothing x f i :
  0 < m f -> Z.of_nat (length (buckets f)) = m f ->
  0 <= i < k f ->
  vec_at (buckets f) (slot f x i) = Some false ->
  testAndRemove x f = Some (false, f).
Proof.
  intros Hm Hl Hi Hb. rewrite testAndRemove_unfold.
  rewrite scan_loop_defined.
  - rewrite andb_true_l, (all_set_false f x _ i); auto.
    by apply in_seeds_upto.
  - intros j _. split; [lia|].
    apply vec_at_in_range. rewrite Hl. by apply slot_range.
Qed.

(** C5 (amended): [testAndAdd x] is [test x] followed by [add x]: both are
    undefined on the same states, and otherwise [testAndAdd] returns what
    [test] returns on the pre-call state and leaves the state [add] leaves.
    In particular it returns false whenever one of the membership bits of
    [x] is unset before the call (as for every [x] on a filter with no bit
    set), and [test x] on the resulting state returns true. *)
Theorem C5_testAndAdd_is_test_then_add x f :
  testAndAdd x f = (b <- test x ;; add x ;;; ret b) f /\
  forall b f', testAndAdd x f = Some (b, f') ->
    test x f = Some (b, f) /\ add x f = Some (tt, f') /\
    test x f' = Some (true, f') /\
    (forall i, 0 <= i < k f ->
       vec_at (buckets f) (slot f x i) = Some false -> b = false).
Proof.
  split.
  - rewrite testAndAdd_as_add. unfold bind at 1.
    destruct (add x f) as [[[] f1]|] eqn:Ea.
    + rewrite (add_defines_test _ _ _ _ Ea). unfold bind, ret.
      by rewrite Ea.
    + destruct (test x f) as [[b f0]|] eqn:Et; [|reflexivity].
      apply test_effect in Et. destruct Et as [-> _].
      unfold bind. by rewrite Ea.
  - intros b f' E. apply testAndAdd_effect in E. destruct E as [-> Ea].
    split; [eapply add_defines_test; eauto|]. split; [exact Ea|].
    split; [eapply test_after_add; eauto|].
    intros i Hi Hb. apply (all_set_false f x _ i); [|exact Hb].
    by apply in_seeds_upto.
Qed.

(** C8: on a filter built from valid sizing parameters, after any sequence
    of calls, [reset] clears every membership bit and every collision flag;
    an immediately following [test x] returns false for every [x] and
    [getCount] returns 0. *)
Theorem C8_reset_empties_the_filter optM optK r g f0 ops log f :
  valid_sizing optM optK r ->
  construct optM optK r g = Some f0 ->
  run ops f0 = Some (log, f) ->
  exists f', reset f = Some (tt, f') /\
    (forall x, test x f' = Some (false, f')) /\
    getCount f' = Some (0, f') /\
    (forall i, vec_at (buckets f') i <> Some true) /\
    (forall j, vec_at (collisions f') j <> Some true).
Proof.
  intros Hv Hc Hr. eexists. split; [apply reset_effect|].
  assert (W : well_sized f).
  { eapply well_sized_shape; [eapply run_same_shape; eauto|].
    eapply construct_well_sized; eauto. }
  destruct W as (Hm & Hl & Hk).
  set (f' := mkDBF _ _ _ _ _ _).
  assert (W' : well_sized f').
  { unfold well_sized, f'. simpl. rewrite length_replicate. auto. }
  split; [|split; [reflexivity|split]].
  - intros x. unfold test, bind, gets. rewrite test_loop_defined.
    + f_equal. f_equal. apply (all_set_false f' x _ 0).
      * apply in_seeds_upto. simpl. lia.
      * unfold f' at 1. simpl. apply vec_at_replicate_false.
        rewrite Hl. by apply (slot_range f').
    + intros i _. by apply well_sized_defined.
  - intros i. apply vec_at_replicate_not_true.
  - intros j. apply vec_at_replicate_not_true.
Qed.

(** ** The claims about sequences of calls *)

Lemma uint32_range z : 0 <= uint32 z < 2 ^ 32.
Proof. unfold uint32. apply Z.mod_pos_bound. lia. Qed.

Lemma uint32_small z : 0 <= z < 2 ^ 32 -> uint32 z = z.
Proof. unfold uint32. apply Z.mod_small. Qed.

Lemma uint32_uint32_add z d : uint32 (uint32 z + d) = uint32 (z + d).
Proof. unfold uint32. apply Zplus_mod_idemp_l. Qed.

Lemma no_reset_iff (log : list Event) :
  existsb is_reset log = false <->
  forall e, In e log -> is_reset e = false.
Proof.
  induction log as [|e log IH]; simpl.
  - split; [intros _ e []|reflexivity].
  - rewrite orb_false_iff, IH. split.
    + intros (He & Hl) e' [<-|Hin]; auto.
    + intros Hall. split; [apply Hall; by left|].
      intros e' Hin. apply Hall. by right.
Qed.

Lemma call_count o f e f' :
  call o f = Some (e, f') -> is_reset e = false ->
  0 <= count f < 2 ^ 32 ->
  count f' = uint32 (count f + delta e).
Proof.
  destruct o as [x|x|x|x|]; simpl; intros E;
    apply bind_Some in E; destruct E as (r & f1 & E & Er);
    inversion Er; subst; clear Er; unfold delta; simpl; intros NR Hc.
  - apply add_effect in E. destruct E as (_ & -> & _). f_equal; lia.
  - apply test_effect in E. destruct E as [-> _].
    rewrite uint32_small; lia.
  - apply testAndAdd_effect in E. destruct E as [_ E].
    apply add_effect in E. destruct E as (_ & -> & _). f_equal; lia.
  - apply testAndRemove_effect in E. destruct E as [_ E]. destruct r.
    + destruct E as (_ & _ & -> & _). f_equal; lia.
    + subst. rewrite uint32_small; lia.
  - discriminate.
Qed.

Lemma additions_cons e log :
  additions (e :: log) = (if is_addition e then 1 else 0) + additions log.
Proof.
  unfold additions. simpl. destruct (is_addition e); simpl length; lia.
Qed.

Lemma removals_cons e log :
  removals (e :: log) = (if is_removal e then 1 else 0) + removals log.
Proof.
  unfold removals. simpl. destruct (is_removal e); simpl length; lia.
Qed.

Lemma run_count ops : forall f log f',
  run ops f = Some (log, f') ->
  (forall e, In e log -> is_reset e = false) ->
  0 <= count f < 2 ^ 32 ->
  count f' = uint32 (count f + additions log - removals log).
Proof.
  induction ops as [|o ops IH]; simpl; intros f log f' E NR Hc.
  - inversion E; subst. unfold additions, removals. simpl.
    rewrite uint32_small; lia.
  - apply bind_Some in E. destruct E as (e & f1 & E1 & E).
    apply bind_Some in E. destruct E as (es & f2 & E2 & E).
    inversion E; subst; clear E.
    pose proof (call_count _ _ _ _ E1 (NR e (or_introl eq_refl)) Hc) as C1.
    rewrite (IH _ _ _ E2).
    + rewrite C1, additions_cons, removals_cons.
      rewrite <- Z.add_sub_assoc, uint32_uint32_add. f_equal.
      unfold delta. lia.
    + intros e' He'. apply NR. by right.
    + rewrite C1. apply uint32_range.
Qed.

(** C3 (amended): count accounting is modular and relative to the count the
    sequence starts from: after a sequence without [reset] made of [a] calls
    to [add] or [testAndAdd] and [d] calls to [testAndRemove] that returned
    true (and any number of other calls), [getCount] returns
    [(c0 + a - d) mod 2^32], where [c0] is the count before the sequence;
    that is [a - d] when [c0 = 0] and [0 <= a - d < 2^32]. *)
Theorem C3_count_accounting_modular ops f log f' :
  0 <= count f < 2 ^ 32 ->
  run ops f = Some (log, f') ->
  existsb is_reset log = false ->
  getCount f' = Some (uint32 (count f + additions log - removals log), f') /\
  (count f = 0 -> 0 <= additions log - removals log < 2 ^ 32 ->
   getCount f' = Some (additions log - removals log, f')).
Proof.
  intros Hc E NR. rewrite no_reset_iff in NR.
  pose proof (run_count _ _ _ _ E NR Hc) as C.
  unfold getCount, gets. rewrite C. split; [reflexivity|].
  intros -> Hr. by rewrite Z.add_0_l, uint32_small.
Qed.

Lemma call_keeps_flagged o f e f' h :
  call o f = Some (e, f') -> is_reset e = false ->
  vec_at (collisions f) (region f h) = Some true ->
  vec_at (buckets f) h = Some true ->
  vec_at (collisions f') (region f' h) = Some true /\
  vec_at (buckets f') h = Some true.
Proof.
  intros E NR Hf Hb.
  pose proof (call_same_shape _ _ _ _ E) as (_ & Sr & _).
  rewrite (region_shape f f') by exact Sr.
  destruct o as [x|x|x|x|]; simpl in E;
    apply bind_Some in E; destruct E as (r & f1 & E & Er);
    inversion Er; subst; clear Er.
  - apply add_effect in E. destruct E as (_ & _ & Bm & Fm & _). auto.
  - apply test_effect in E. destruct E as [-> _]. auto.
  - apply testAndAdd_effect in E. destruct E as [_ E].
    apply add_effect in E. destruct E as (_ & _ & Bm & Fm & _). auto.
  - apply testAndRemove_effect in E. destruct E as [_ E]. destruct r.
    + destruct E as (_ & -> & _ & Bs). split; [exact Hf|].
      destruct (Bs h Hb) as [?|(? & _)]; [assumption|congruence].
    + subst. auto.
  - discriminate.
Qed.

(** C7: removal gating by collision: along any sequence of calls without
    [reset], a membership bit that is set and whose region's collision flag
    is set stays set, and the flag stays set; and a single [testAndRemove]
    clears a set bit only if the collision flag of its region is unset. *)
Theorem C7_removal_gated_by_collision f h :
  (forall ops log f',
     run ops f = Some (log, f') ->
     existsb is_reset log = false ->
     vec_at (collisions f) (region f h) = Some true ->
     vec_at (buckets f) h = Some true ->
     vec_at (collisions f') (region f' h) = Some true /\
     vec_at (buckets f') h = Some true) /\
  (forall x b f',
     testAndRemove x f = Some (b, f') ->
     vec_at (buckets f) h = Some true ->
     vec_at (buckets f') h <> Some true ->
     vec_at (collisions f) (region f h) = Some false).
Proof.
  split.
  - intros ops log f' E NR. rewrite no_reset_iff in NR.
    revert f log f' E NR.
    induction ops as [|o ops IH]; simpl; intros f log f' E NR Hf Hb.
    + inversion E; subst. auto.
    + apply bind_Some in E. destruct E as (e & f1 & E1 & E).
      apply bind_Some in E. destruct E as (es & f2 & E2 & E).
      inversion E; subst; clear E.
      destruct (call_keeps_flagged _ _ _ _ h E1) as (Hf1 & Hb1); auto.
      { apply NR. by left. }
      eapply IH; eauto. intros e' He'. apply NR. by right.
  - intros x b f' E Hb Hn. apply testAndRemove_effect in E.
    destruct E as [_ E]. destruct b.
    + destruct E as (_ & _ & _ & Bs).
      destruct (Bs h Hb) as [?|(? & _)]; [contradiction|assumption].
    + subst. contradiction.
Qed.

(** ** Held items are never lost *)

Lemma claims_remove_one f x S h :
  In x S ->
  claims f S h =
  ((if touches f x h then 1 else 0) + claims f (remove_one x S) h)%nat.
Proof.
  induction S as [|y S IH]; simpl; [intros []|].
  destruct (decide (x = y)) as [->|Hne]; [reflexivity|].
  intros [->|Hin]; [contradiction|]. simpl. rewrite (IH Hin). lia.
Qed.

Lemma in_remove_one_ne x y S : In x S -> x <> y -> In x (remove_one y S).
Proof.
  induction S as [|z S IH]; simpl; [intros []|]. intros Hin Hne.
  destruct (decide (y = z)) as [->|Hyz].
  - destruct Hin as [->|?]; [contradiction|assumption].
  - destruct Hin as [->|?]; [by left|]. right. auto.
Qed.

Lemma held_after_app l1 l2 S :
  held_after (l1 ++ l2) S = held_after l2 (held_after l1 S).
Proof. revert S. induction l1 as [|e l1 IH]; simpl; auto. Qed.

Lemma held_after_keeps log : forall S x,
  In x S ->
  (forall e, In e log -> e <> ETestAndRemove x true /\ e <> EReset) ->
  In x (held_after log S).
Proof.
  induction log as [|e log IH]; simpl; intros S x Hin Hno; [exact Hin|].
  apply IH; [|intros e' He'; apply Hno; by right].
  destruct (Hno e (or_introl eq_refl)) as (Hrm & Hrs).
  destruct e as [y|y b|y b|y [|]|]; simpl; auto; try contradiction.
  apply in_remove_one_ne; [exact Hin|]. intros ->. contradiction.
Qed.

Lemma covered_nil f : covered f [].
Proof. intros h. simpl. split; lia. Qed.

Lemma covered_add x f u f' S :
  add x f = Some (u, f') -> covered f S -> covered f' (x :: S).
Proof.
  intros E Cv. apply add_effect in E.
  destruct E as (Sh & _ & Bm & Fm & All). intros h.
  pose proof Sh as (Sm & Sr & _).
  simpl. rewrite (touches_shape f f'), (claims_shape f f') by exact Sh.
  rewrite (region_shape f f'), Sm by exact Sr.
  destruct (Cv h) as (C1 & C2).
  destruct (touches f x h) eqn:T.
  - apply touches_iff in T. destruct T as (i & Hi & <-).
    destruct (All i Hi) as (Hm & Hset & Hflag).
    split; [auto|]. intros Hc. apply Hflag, C1. lia.
  - split; intros Hc.
    + destruct C1 as (? & ?); [lia|]. auto.
    + apply Fm, C2. lia.
Qed.

Lemma covered_remove x f f' S :
  testAndRemove x f = Some (true, f') -> In x S -> covered f S ->
  covered f' (remove_one x S).
Proof.
  intros E Hin Cv. apply testAndRemove_effect in E.
  destruct E as (_ & Sh & Cf & _ & Bs). intros h.
  pose proof Sh as (Sm & Sr & _).
  rewrite (claims_shape f f') by exact Sh.
  rewrite (region_shape f f'), Sm, Cf by exact Sr.
  destruct (Cv h) as (C1 & C2).
  pose proof (claims_remove_one f x S h Hin) as Hcl.
  split; intros Hc.
  - destruct C1 as (Hm & Hb); [lia|]. split; [exact Hm|].
    destruct (Bs h Hb) as [?|(Hf & T)]; [assumption|].
    rewrite T in Hcl. rewrite C2 in Hf by lia. discriminate.
  - apply C2. lia.
Qed.

Lemma covered_call o f e f' S :
  call o f = Some (e, f') -> covered f S ->
  match e with ETestAndRemove x true => In x S | _ => True end ->
  covered f' (held_step e S).
Proof.
  destruct o as [x|x|x|x|]; simpl; intros E;
    apply bind_Some in E; destruct E as (r & f1 & E & Er);
    inversion Er; subst; clear Er; simpl; intros Cv Hin.
  - eapply covered_add; eauto.
  - apply test_effect in E. by destruct E as [-> _].
  - apply testAndAdd_effect in E. destruct E as [_ E].
    eapply covered_add; eauto.
  - destruct r.
    + eapply covered_remove; eauto.
    + apply testAndRemove_effect in E. by destruct E as [_ ->].
  - apply covered_nil.
Qed.

Lemma covered_run ops : forall f log f' S,
  run ops f = Some (log, f') -> covered f S -> removals_held log S ->
  covered f' (held_after log S).
Proof.
  induction ops as [|o ops IH]; simpl; intros f log f' S E Cv Hr.
  - inversion E; subst. exact Cv.
  - apply bind_Some in E. destruct E as (e & f1 & E1 & E).
    apply bind_Some in E. destruct E as (es & f2 & E2 & E).
    inversion E; subst; clear E. simpl in *. destruct Hr as (Hin & Hr).
    eapply IH; eauto. eapply covered_call; eauto.
Qed.

Lemma covered_test f S x :
  covered f S -> In x S -> test x f = Some (true, f).
Proof.
  intros Cv Hin.
  assert (D : forall i, In i (seeds_upto (k f)) ->
            m f <> 0 /\ vec_at (buckets f) (slot f x i) = Some true).
  { intros i Hi. apply Cv.
    rewrite (claims_remove_one f x S _ Hin).
    assert (T : touches f x (slot f x i) = true)
      by (apply touches_iff; eauto).
    rewrite T. lia. }
  unfold test, bind, gets. rewrite test_loop_defined.
  - f_equal. f_equal. apply all_set_true. intros i Hi. by apply D.
  - intros i Hi. destruct (D i Hi). eauto.
Qed.

(** C2 (amended): no false negatives for held items: take any sequence of
    calls on one filter in which every [testAndRemove] that returned true was
    applied to an item held at that moment (added by [add] or [testAndAdd]
    more often than removed since the last [reset]).  If [x] was added in
    that sequence and afterwards no [testAndRemove x] returned true and the
    filter was not reset, then [test x] returns true. *)
Theorem C2_no_false_negatives_for_held_items ops f0 log f x l1 e l2 :
  run ops f0 = Some (log, f) ->
  removals_held log [] ->
  log = l1 ++ e :: l2 ->
  (e = EAdd x \/ exists b, e = ETestAndAdd x b) ->
  (forall e', In e' l2 -> e' <> ETestAndRemove x true /\ e' <> EReset) ->
  test x f = Some (true, f).
Proof.
  intros E Hr -> He Hno.
  apply (covered_test f (held_after (l1 ++ e :: l2) [])).
  - eapply covered_run; eauto. apply covered_nil.
  - rewrite held_after_app. simpl. apply held_after_keeps; [|exact Hno].
    destruct He as [->|[b ->]]; simpl; by left.
Qed.

(** ** Definedness: when the regions cover the membership range *)

Lemma geometry_shape f f' : same_shape f f' -> geometry_ok f -> geometry_ok f'.
Proof.
  intros (Sm & Sr & _ & Sb & Sc) (Hm & Hl & Hr & Hc).
  unfold geometry_ok, regions_cover. rewrite Sm, Sr, Sb, Sc. auto.
Qed.

Lemma region_in_bounds f x i :
  geometry_ok f ->
  0 <= region f (slot f x i) < Z.of_nat (length (collisions f)).
Proof.
  intros (Hm & _ & Hr & Hc). pose proof (slot_range f x i Hm) as Hs.
  unfold region. split.
  - apply Z.div_pos; lia.
  - eapply Z.le_lt_trans; [|exact Hc]. apply Z.div_le_mono; lia.
Qed.

Lemma vec_set_in_range v i b :
  0 <= i < Z.of_nat (length v) -> exists v', vec_set v i b = Some v'.
Proof. intros Hi. unfold vec_set. destruct (decide _); [eauto|lia]. Qed.

Lemma for_seeds_defined {S} (body : Z -> S -> M S) l :
  (forall i s f, geometry_ok f ->
     exists s' f', body i s f = Some (s', f') /\ same_shape f f') ->
  forall s f, geometry_ok f ->
    exists s' f', for_seeds l body s f = Some (s', f') /\ same_shape f f'.
Proof.
  intros Hbody. induction l as [|i l IH]; simpl; intros s f G.
  - exists s, f. split; [reflexivity|apply same_shape_refl].
  - destruct (Hbody i s f G) as (s1 & f1 & E1 & S1).
    destruct (IH s1 f1 (geometry_shape _ _ S1 G)) as (s2 & f2 & E2 & S2).
    exists s2, f2. rewrite (bind_step _ _ _ _ _ E1).
    split; [exact E2|eapply same_shape_trans; eauto].
Qed.

Lemma add_body_defined x i u f :
  geometry_ok f ->
  exists u' f', add_body x i u f = Some (u', f') /\ same_shape f f'.
Proof.
  intros G. pose proof G as (Hm & Hl & Hr & _). destruct u.
  destruct (vec_at_in_range (buckets f) (slot f x i)) as [b Hb];
    [rewrite Hl; by apply slot_range|].
  assert (Hgo : forall f1, add_body x i tt f = Some (tt, f1) ->
            exists u' f', add_body x i tt f = Some (u', f') /\ same_shape f f').
  { intros f1 E. exists tt, f1. split; [exact E|].
    apply add_body_grows in E. apply E. }
  unfold add_body in *.
  rewrite (bind_step _ _ f (slot f x i) f) in *
    by (apply hash_mod_m_Some; split; [lia|auto]).
  rewrite (bind_step _ _ f b f) in * by (by apply read_bucket_Some).
  destruct b.
  - rewrite (bind_step _ _ f (region f (slot f x i)) f) in *
      by (apply region_of_Some; split; [lia|auto]).
    destruct (vec_set_in_range (collisions f) (region f (slot f x i)) true)
      as [c' Hc']; [by apply region_in_bounds|].
    apply (Hgo (set_collisions c' f)). apply write_collision_Some. eauto.
  - destruct (vec_set_in_range (buckets f) (slot f x i) true)
      as [v' Hv']; [rewrite Hl; by apply slot_range|].
    apply (Hgo (set_buckets v' f)). apply write_bucket_Some. eauto.
Qed.

Lemma remove_body_defined x i u f :
  geometry_ok f ->
  exists u' f', remove_body x i u f = Some (u', f') /\ same_shape f f'.
Proof.
  intros G. pose proof G as (Hm & Hl & Hr & _). destruct u.
  destruct (vec_at_in_range (collisions f) (region f (slot f x i)))
    as [c Hc]; [by apply region_in_bounds|].
  unfold remove_body.
  rewrite (bind_step _ _ f (slot f x i) f)
    by (apply hash_mod_m_Some; split; [lia|auto]).
  rewrite (bind_step _ _ f (region f (slot f x i)) f)
    by (apply region_of_Some; split; [lia|auto]).
  rewrite (bind_step _ _ f c f) by (by apply read_collision_Some).
  destruct c.
  - exists tt, f. split; [reflexivity|apply same_shape_refl].
  - destruct (vec_set_in_range (buckets f) (slot f x i) false)
      as [v' Hv']; [rewrite Hl; by apply slot_range|].
    exists tt, (set_buckets v' f). split.
    + apply write_bucket_Some. eauto.
    + repeat split; simpl. eapply vec_set_length; eauto.
Qed.

Lemma geometry_defined f x i :
  geometry_ok f ->
  m f <> 0 /\ exists b, vec_at (buckets f) (slot f x i) = Some b.
Proof.
  intros (Hm & Hl & _). split; [lia|].
  apply vec_at_in_range. rewrite Hl. by apply slot_range.
Qed.

(** With regions that cover the membership range, every call returns. *)
Lemma call_defined o f :
  geometry_ok f -> exists e f', call o f = Some (e, f') /\ geometry_ok f'.
Proof.
  intros G.
  assert (Hadd : forall x, exists f', add x f = Some (tt, f')).
  { intros x. rewrite add_unfold.
    destruct (for_seeds_defined (add_body x) (seeds_upto (k f))
                (add_body_defined x) tt f G) as ([] & f1 & -> & _).
    eauto. }
  assert (Hgo : forall e f', call o f = Some (e, f') ->
            exists e f', call o f = Some (e, f') /\ geometry_ok f').
  { intros e f' E. exists e, f'. split; [exact E|].
    eapply geometry_shape; [eapply call_same_shape|]; eauto. }
  destruct o as [x|x|x|x|]; simpl.
  - destruct (Hadd x) as (f' & E). apply (Hgo (EAdd x) f'). simpl.
    by rewrite (bind_step _ _ _ _ _ E).
  - apply (Hgo (ETest x (all_set f x (seeds_upto (k f)))) f). simpl.
    unfold test. unfold bind at 1 2, gets. rewrite test_loop_defined.
    + reflexivity.
    + intros i _. by apply geometry_defined.
  - destruct (Hadd x) as (f' & E).
    apply (Hgo (ETestAndAdd x (all_set f x (seeds_upto (k f)))) f'). simpl.
    unfold bind. by rewrite testAndAdd_as_add, E.
  - assert (exists b f', testAndRemove x f = Some (b, f')) as (b & f' & E).
    { rewrite testAndRemove_unfold, scan_loop_defined
        by (intros i _; by apply geometry_defined).
      destruct (true && all_set f x (seeds_upto (k f))); [|eauto].
      destruct (for_seeds_defined (remove_body x) (seeds_upto (k f))
                  (remove_body_defined x) tt f G) as ([] & f1 & -> & _).
      eauto. }
    apply (Hgo (ETestAndRemove x b) f'). simpl.
    by rewrite (bind_step _ _ _ _ _ E).
  - eapply Hgo. reflexivity.
Qed.

Lemma run_defined ops : forall f,
  geometry_ok f -> exists log f', run ops f = Some (log, f').
Proof.
  induction ops as [|o ops IH]; simpl; intros f G; [by eauto|].
  destruct (call_defined o f G) as (e & f1 & E1 & G1).
  destruct (IH f1 G1) as (log & f2 & E2).
  exists (e :: log), f2.
  rewrite (bind_step _ _ _ _ _ E1). by rewrite (bind_step _ _ _ _ _ E2).
Qed.

(** The constructor yields that geometry when [r] divides [optM - r]. *)
Lemma construct_geometry optM optK r g f :
  valid_sizing optM optK r -> (optM - r) mod r = 0 -> optM - r >= r ->
  construct optM optK r g = Some f -> geometry_ok f.
Proof.
  intros (Hr & HM & HK) Hdiv Hge. unfold construct.
  destruct (decide (r = 0)); [lia|]. intros [= <-].
  assert (Hu : uint32 (optM - r) = optM - r)
    by (unfold uint32; apply Z.mod_small; lia).
  unfold geometry_ok, regions_cover. simpl.
  rewrite Hu, !length_replicate.
  assert (Hq : 0 < (optM - r) / r) by (apply Z.div_str_pos; lia).
  split; [lia|]. split; [lia|]. split; [exact Hq|].
  rewrite Z2Nat.id by lia.
  apply Z.div_lt_upper_bound; [exact Hq|].
  pose proof (Z.div_mod (optM - r) r ltac:(lia)) as Hdm.
  rewrite Hdiv in Hdm. nia.
Qed.

(** * Further properties of the member functions *)

Lemma dbf_eq f f' :
  buckets f' = buckets f -> collisions f' = collisions f -> m f' = m f ->
  regionSize f' = regionSize f -> k f' = k f -> count f' = count f ->
  f' = f.
Proof. destruct f, f'; simpl; intros; subst; reflexivity. Qed.

Lemma vec_ext (v v' : list bool) :
  (forall h, vec_at v h = vec_at v' h) -> v = v'.
Proof.
  intros E. apply list_eq. intros i. specialize (E (Z.of_nat i)).
  unfold vec_at in E. destruct (decide (0 <= Z.of_nat i)); [|lia].
  by rewrite Nat2Z.id in E.
Qed.

Lemma vec_at_None v h :
  vec_at v h = None <-> ~ (0 <= h < Z.of_nat (length v)).
Proof.
  unfold vec_at. destruct (decide (0 <= h)).
  - rewrite lookup_ge_None. lia.
  - split; [lia|reflexivity].
Qed.

Lemma vec_at_None_length v v' h :
  length v' = length v -> vec_at v h = None -> vec_at v' h = None.
Proof. rewrite !vec_at_None. intros ->. auto. Qed.

Lemma vec_at_is_Some_length v v' h b :
  length v' = length v -> vec_at v h = Some b ->
  exists b', vec_at v' h = Some b'.
Proof.
  intros Hl E. apply vec_at_Some_range in E. rewrite <- Hl in E.
  by apply vec_at_in_range.
Qed.

(** ** Sizes are fixed at construction *)

Lemma constructed_shape optM optK r g f0 ops log f :
  construct optM optK r g = Some f0 -> run ops f0 = Some (log, f) ->
  m f = uint32 (optM - r) /\ regionSize f = uint32 (optM - r) / r /\
  k f = optK /\
  length (buckets f) = Z.to_nat (uint32 (optM - r)) /\
  length (collisions f) = Z.to_nat r.
Proof.
  unfold construct. destruct (decide (r = 0)); [discriminate|].
  intros [= <-] E. apply run_same_shape in E.
  destruct E as (-> & -> & -> & -> & ->). simpl.
  by rewrite !length_replicate.
Qed.

(** X1: the sizing members never change: after any sequence of calls
    (including [reset]) on a constructed filter, [m], [regionSize] and [k]
    have the values the constructor computed and the two vectors have their
    constructed lengths. *)
Theorem X1_sizes_fixed_at_construction optM optK r g f0 ops log f :
  construct optM optK r g = Some f0 -> run ops f0 = Some (log, f) ->
  m f = uint32 (optM - r) /\ regionSize f = uint32 (optM - r) / r /\
  k f = optK /\
  Z.of_nat (length (buckets f)) = m f /\
  length (collisions f) = Z.to_nat r.
Proof.
  intros Hc E.
  destruct (constructed_shape _ _ _ _ _ _ _ _ Hc E) as (Hm & Hr & Hk & Hb & Hl).
  rewrite Hm, Hb. repeat split; auto.
  rewrite Z2Nat.id; [reflexivity|]. apply uint32_range.
Qed.

(** X2: [reset] restores the constructed state: after any sequence of calls
    on a constructed filter, [reset] yields exactly the filter the
    constructor builds from the same sizing when the storage of [count]
    holds 0. *)
Theorem X2_reset_restores_the_constructed_filter optM optK r g f0 ops log f :
  construct optM optK r g = Some f0 -> run ops f0 = Some (log, f) ->
  exists f', reset f = Some (tt, f') /\ construct optM optK r 0 = Some f'.
Proof.
  intros Hc E.
  destruct (constructed_shape _ _ _ _ _ _ _ _ Hc E) as (Hm & Hr & Hk & Hb & Hl).
  eexists. split; [apply reset_effect|].
  unfold construct in *. destruct (decide (r = 0)); [discriminate|].
  by rewrite Hm, Hr, Hk, Hb, Hl.
Qed.

(** ** What [testAndRemove] returns *)

(** X3: the value [testAndRemove x] returns is the value [test x] returns
    on the state before the call. *)
Theorem X3_testAndRemove_returns_what_test_returns x f b f' :
  testAndRemove x f = Some (b, f') -> test x f = Some (b, f).
Proof.
  rewrite testAndRemove_unfold.
  destruct (for_seeds _ (scan_body x) _ _) as [[mem f0]|] eqn:E1;
    [|discriminate].
  apply scan_loop_Some in E1. destruct E1 as (-> & -> & D).
  rewrite andb_true_l. intros E.
  assert (Hb : b = all_set f x (seeds_upto (k f))).
  { destruct (all_set f x (seeds_upto (k f))).
    - destruct (for_seeds _ (remove_body x) _ _) as [[[] ?]|];
        [|discriminate]. by inversion E.
    - by inversion E. }
  subst b. unfold test, bind, gets. by apply test_loop_defined.
Qed.

(** ** Membership without removal *)

Lemma test_loop_visits x l : forall f f',
  test_loop x l f = Some (true, f') ->
  forall i, In i l ->
    m f <> 0 /\ vec_at (buckets f) (slot f x i) = Some true.
Proof.
  induction l as [|i0 l IH]; simpl; intros f f' E i Hi; [destruct Hi|].
  run_inv.
  match goal with Hb : vec_at _ _ = Some ?c |- _ => destruct c end;
    [|run_inv].
  destruct Hi as [<-|Hi]; [auto|]. eapply IH; eauto.
Qed.

Lemma test_true_iff x f :
  test x f = Some (true, f) <->
  forall i, In i (seeds_upto (k f)) ->
    m f <> 0 /\ vec_at (buckets f) (slot f x i) = Some true.
Proof.
  split.
  - unfold test. intros E. run_inv. eapply test_loop_visits; eauto.
  - intros D. unfold test, bind, gets. rewrite test_loop_defined.
    + f_equal. f_equal. apply all_set_true. intros i Hi. by apply D.
    + intros i Hi. destruct (D i Hi). eauto.
Qed.

Lemma call_keeps_bits o f e f' h :
  call o f = Some (e, f') -> is_reset e = false -> is_removal e = false ->
  vec_at (buckets f) h = Some true -> vec_at (buckets f') h = Some true.
Proof.
  destruct o as [x|x|x|x|]; simpl; intros E;
    apply bind_Some in E; destruct E as (r & f1 & E & Er);
    inversion Er; subst; clear Er; simpl; intros NR NS Hb.
  - apply add_effect in E. destruct E as (_ & _ & Bm & _). auto.
  - apply test_effect in E. by destruct E as [-> _].
  - apply testAndAdd_effect in E. destruct E as [_ E].
    apply add_effect in E. destruct E as (_ & _ & Bm & _). auto.
  - destruct r; [discriminate|].
    apply testAndRemove_effect in E. by destruct E as [_ ->].
  - discriminate.
Qed.

Lemma run_keeps_bits ops : forall f log f' h,
  run ops f = Some (log, f') ->
  existsb is_reset log = false -> existsb is_removal log = false ->
  vec_at (buckets f) h = Some true -> vec_at (buckets f') h = Some true.
Proof.
  induction ops as [|o ops IH]; simpl; intros f log f' h E NR NS Hb.
  - by inversion E; subst.
  - apply bind_Some in E. destruct E as (e & f1 & E1 & E).
    apply bind_Some in E. destruct E as (es & f2 & E2 & E).
    inversion E; subst; clear E. simpl in NR, NS.
    apply orb_false_iff in NR. apply orb_false_iff in NS.
    destruct NR, NS. eapply IH; eauto. eapply call_keeps_bits; eauto.
Qed.

(** X4: without removal, membership is monotone: if [test x] returns true,
    it still returns true after any sequence of calls in which no
    [testAndRemove] returned true and the filter was not reset (whether or
    not [x] was ever added). *)
Theorem X4_membership_persists_without_removal x f ops log f' :
  test x f = Some (true, f) ->
  run ops f = Some (log, f') ->
  existsb is_reset log = false -> existsb is_removal log = false ->
  test x f' = Some (true, f').
Proof.
  intros T E NR NS. rewrite test_true_iff in T. apply test_true_iff.
  pose proof (run_same_shape _ _ _ _ E) as (Sm & _ & Sk & _).
  intros i Hi. rewrite Sk in Hi. rewrite (slot_shape f f'), Sm by exact Sm.
  destruct (T i Hi) as (Hm & Hb). split; [exact Hm|].
  eapply run_keeps_bits; eauto.
Qed.

(** ** Inverting short runs *)


Lemma run_cons_step o ops f e f1 es f' :
  call o f = Some (e, f1) -> run ops f1 = Some (es, f') ->
  run (o :: ops) f = Some (e :: es, f').
Proof.
  intros E1 E2. simpl. rewrite (bind_step _ _ _ _ _ E1).
  by rewrite (bind_step _ _ _ _ _ E2).
Qed.

Lemma call_Add_step x f u f' :
  add x f = Some (u, f') -> call (Add x) f = Some (EAdd x, f').
Proof. intros E. simpl. by rewrite (bind_step _ _ _ _ _ E). Qed.

Lemma call_Add_Some x f e f' :
  call (Add x) f = Some (e, f') -> add x f = Some (tt, f') /\ e = EAdd x.
Proof.
  simpl. intros E. apply bind_Some in E. destruct E as ([] & f1 & E1 & E).
  inversion E; subst. auto.
Qed.

Lemma slot_shape_fun f f' x : m f' = m f -> slot f' x = slot f x.
Proof. unfold slot. intros ->. reflexivity. Qed.

Lemma slot_set_buckets v f : slot (set_buckets v f) = slot f.
Proof. reflexivity. Qed.

Lemma region_set_buckets v f : region (set_buckets v f) = region f.
Proof. reflexivity. Qed.

Lemma in_slots f x h :
  In h (slots f x) <-> exists i, 0 <= i < k f /\ slot f x i = h.
Proof.
  unfold slots. rewrite in_map_iff. split.
  - intros (i & E & Hi). apply in_seeds_upto in Hi. eauto.
  - intros (i & Hi & E). exists i. split; [exact E|by apply in_seeds_upto].
Qed.

(** ** Bits in flagged regions *)



(** ** The removal pass, exactly *)

Lemma remove_loop_exact x l : forall f u f',
  for_seeds l (remove_body x) tt f = Some (u, f') ->
  (forall h, vec_at (buckets f) h = Some false ->
             vec_at (buckets f') h = Some false) /\
  (forall h, ~ In h (map (slot f x) l) ->
             vec_at (buckets f') h = vec_at (buckets f) h) /\
  (forall i, In i l ->
     vec_at (collisions f) (region f (slot f x i)) = Some false ->
     vec_at (buckets f') (slot f x i) = Some false) /\
  ((forall i, In i l ->
      vec_at (collisions f) (region f (slot f x i)) = Some true) ->
   f' = f).
Proof.
  induction l as [|i0 l IH]; simpl; intros f u f' E.
  - inversion E; subst. repeat split; auto. intros i [].
  - apply bind_Some in E. destruct E as ([] & f1 & E1 & E2).
    apply remove_body_spec in E1. apply IH in E2.
    destruct E2 as (F2 & U2 & C2 & N2).
    destruct E1 as [(Hc & ->)|(Hc & v' & Hv & ->)].
    + split; [exact F2|]. split; [intros h Hh; apply U2; tauto|].
      split.
      * intros i [<-|Hi] Hf; [congruence|auto].
      * intros Hall. apply N2. intros i Hi. apply Hall. by right.
    + rewrite slot_set_buckets, region_set_buckets in *. simpl in *.
      assert (Hs0 : vec_at v' (slot f x i0) = Some false)
        by (eapply vec_at_set_eq; eauto).
      split; [|split; [|split]].
      * intros h Hh. apply F2.
        destruct (decide (h = slot f x i0)) as [->|Hne]; [exact Hs0|].
        by erewrite vec_at_set_ne by eauto.
      * intros h Hh. rewrite U2 by tauto.
        eapply vec_at_set_ne; eauto.
      * intros i [<-|Hi] Hf; [auto|auto].
      * intros Hall. specialize (Hall i0 (or_introl eq_refl)). congruence.
Qed.

Lemma testAndRemove_true_inv x f f' :
  testAndRemove x f = Some (true, f') ->
  exists f1,
    for_seeds (seeds_upto (k f)) (remove_body x) tt f = Some (tt, f1) /\
    f' = set_count (uint32 (count f1 - 1)) f1 /\
    forall i, In i (seeds_upto (k f)) ->
      m f <> 0 /\ vec_at (buckets f) (slot f x i) = Some true.
Proof.
  rewrite testAndRemove_unfold.
  destruct (for_seeds _ (scan_body x) _ _) as [[mem f0]|] eqn:E1;
    [|discriminate].
  apply scan_loop_Some in E1. destruct E1 as (-> & -> & D).
  rewrite andb_true_l.
  destruct (all_set f x (seeds_upto (k f))) eqn:A; [|discriminate].
  destruct (for_seeds _ (remove_body x) _ _) as [[[] f1]|]; [|discriminate].
  intros E. inversion E; subst. exists f1. split; [reflexivity|].
  split; [reflexivity|]. rewrite all_set_true in A.
  intros i Hi. destruct (D i Hi). auto.
Qed.

(** X6: removal is effective outside collided regions: if [testAndRemove x]
    returns true and one of the membership indices of [x] lies in a region
    whose collision flag is unset, that bit is cleared and [test x] returns
    false afterwards. *)
Theorem X6_removal_clears_an_unflagged_bit x f f' i :
  testAndRemove x f = Some (true, f') ->
  0 <= i < k f ->
  vec_at (collisions f) (region f (slot f x i)) = Some false ->
  vec_at (buckets f') (slot f x i) = Some false /\
  test x f' = Some (false, f').
Proof.
  intros E Hi Hf. apply in_seeds_upto in Hi.
  apply testAndRemove_true_inv in E. destruct E as (f1 & E & -> & D).
  pose proof (remove_loop_spec _ _ _ _ _ E) as ((Sm & Sr & Sk & Sb & Sc) & _).
  apply remove_loop_exact in E. destruct E as (_ & _ & Cl & _).
  assert (Hb : vec_at (buckets f1) (slot f x i) = Some false) by auto.
  split; [exact Hb|].
  unfold test, bind, gets. simpl. rewrite test_loop_defined.
  - f_equal. f_equal. apply (all_set_false _ x _ i); [by rewrite Sk|].
    simpl. by rewrite (slot_shape f) by exact Sm.
  - simpl. rewrite Sk. intros j Hj. rewrite Sm.
    rewrite (slot_shape f) by exact Sm.
    destruct (D j Hj) as (Hm & Hbj). split; [exact Hm|].
    eapply vec_at_is_Some_length; eauto.
Qed.

(** X7: removal leaks in collided regions: if every membership index of [x]
    lies in a flagged region, a [testAndRemove x] that returns true changes
    nothing but the count, and [test x] still returns true. *)
Theorem X7_removal_in_flagged_regions_only_decrements x f f' :
  testAndRemove x f = Some (true, f') ->
  (forall i, 0 <= i < k f ->
     vec_at (collisions f) (region f (slot f x i)) = Some true) ->
  f' = set_count (uint32 (count f - 1)) f /\ test x f' = Some (true, f').
Proof.
  intros E Hall. apply testAndRemove_true_inv in E.
  destruct E as (f1 & E & -> & D).
  apply remove_loop_exact in E. destruct E as (_ & _ & _ & Same).
  rewrite Same by (intros i Hi; apply Hall; by apply in_seeds_upto).
  split; [reflexivity|]. apply test_true_iff. exact D.
Qed.

(** X8: what [testAndRemove] never does: it never changes a collision flag,
    never sets a membership bit, and never changes a bit that is not one of
    the membership indices of [x]. *)
Theorem X8_testAndRemove_frame x f b f' :
  testAndRemove x f = Some (b, f') ->
  collisions f' = collisions f /\
  (forall h, vec_at (buckets f) h = Some false ->
             vec_at (buckets f') h = Some false) /\
  (forall h, ~ In h (slots f x) ->
             vec_at (buckets f') h = vec_at (buckets f) h).
Proof.
  intros E. destruct b.
  - apply testAndRemove_true_inv in E. destruct E as (f1 & E & -> & _).
    pose proof (remove_loop_spec _ _ _ _ _ E) as (_ & Cf & _).
    apply remove_loop_exact in E. destruct E as (F & U & _). auto.
  - apply testAndRemove_effect in E. destruct E as [_ ->]. auto.
Qed.

(** ** The insertion pass, exactly *)

Lemma slot_set_collisions v f : slot (set_collisions v f) = slot f.
Proof. reflexivity. Qed.

Lemma region_set_collisions v f : region (set_collisions v f) = region f.
Proof. reflexivity. Qed.

Lemma add_loop_frame x l : forall f u f',
  for_seeds l (add_body x) tt f = Some (u, f') ->
  (forall h, ~ In h (map (slot f x) l) ->
             vec_at (buckets f') h = vec_at (buckets f) h) /\
  (forall j, ~ In j (map (region f) (map (slot f x) l)) ->
             vec_at (collisions f') j = vec_at (collisions f) j).
Proof.
  induction l as [|i0 l IH]; simpl; intros f u f' E.
  - inversion E; subst. auto.
  - apply bind_Some in E. destruct E as ([] & f1 & E1 & E2).
    apply add_body_spec in E1. apply IH in E2. destruct E2 as (B2 & F2).
    destruct E1 as (_ & [(Hb & c' & Hc & ->)|(Hb & v' & Hv & ->)]).
    + rewrite slot_set_collisions, region_set_collisions in *. simpl in *.
      split; [intros h Hh; apply B2; tauto|].
      intros j Hj. rewrite F2 by tauto. eapply vec_at_set_ne; eauto.
    + rewrite slot_set_buckets, region_set_buckets in *. simpl in *.
      split; [|intros j Hj; apply F2; tauto].
      intros h Hh. rewrite B2 by tauto. eapply vec_at_set_ne; eauto.
Qed.

(** X9: what [add] never does: it never clears a membership bit or a
    collision flag, never changes a bit that is not one of the membership
    indices of [x], and never changes the flag of a region that none of those
    indices lies in. *)
Theorem X9_add_frame x f u f' :
  add x f = Some (u, f') ->
  (forall h, vec_at (buckets f) h = Some true ->
             vec_at (buckets f') h = Some true) /\
  (forall j, vec_at (collisions f) j = Some true ->
             vec_at (collisions f') j = Some true) /\
  (forall h, ~ In h (slots f x) ->
             vec_at (buckets f') h = vec_at (buckets f) h) /\
  (forall j, ~ In j (map (region f) (slots f x)) ->
             vec_at (collisions f') j = vec_at (collisions f) j).
Proof.
  intros E. pose proof (add_effect _ _ _ _ E) as (_ & _ & Bm & Fm & _).
  split; [exact Bm|]. split; [exact Fm|].
  rewrite add_unfold in E.
  destruct (for_seeds _ _ _ _) as [[[] f1]|] eqn:E1; [|discriminate].
  inversion E; subst. apply add_loop_frame in E1. exact E1.
Qed.

Lemma add_loop_fresh x l : forall f,
  m f <> 0 ->
  NoDup (map (slot f x) l) ->
  (forall i, In i l -> vec_at (buckets f) (slot f x i) = Some false) ->
  exists f', for_seeds l (add_body x) tt f = Some (tt, f') /\
             collisions f' = collisions f.
Proof.
  induction l as [|i0 l IH]; simpl; intros f Hm Hnd Hall.
  - exists f. auto.
  - apply NoDup_cons in Hnd. destruct Hnd as (Hnotin & Hnd).
    pose proof (Hall i0 (or_introl eq_refl)) as Hb0.
    destruct (vec_set_in_range (buckets f) (slot f x i0) true) as [v' Hv'];
      [eapply vec_at_Some_range; eauto|].
    assert (E1 : add_body x i0 tt f = Some (tt, set_buckets v' f)).
    { unfold add_body.
      rewrite (bind_step _ _ f (slot f x i0) f)
        by (apply hash_mod_m_Some; auto).
      rewrite (bind_step _ _ f false f) by (by apply read_bucket_Some).
      apply write_bucket_Some. eauto. }
    destruct (IH (set_buckets v' f)) as (f' & E2 & C2).
    + exact Hm.
    + by rewrite slot_set_buckets.
    + intros i Hi. rewrite slot_set_buckets. simpl.
      erewrite vec_at_set_ne; eauto.
      intros Heq. apply Hnotin. rewrite <- Heq.
      apply list_elem_of_In. by apply in_map.
    + exists f'. rewrite (bind_step _ _ _ _ _ E1). auto.
Qed.

Lemma remove_loop_unflagged_defined x l : forall f,
  m f <> 0 -> regionSize f <> 0 ->
  (forall i, In i l ->
     vec_at (collisions f) (region f (slot f x i)) = Some false /\
     exists b, vec_at (buckets f) (slot f x i) = Some b) ->
  exists f', for_seeds l (remove_body x) tt f = Some (tt, f').
Proof.
  induction l as [|i0 l IH]; simpl; intros f Hm Hr Hall; [by eauto|].
  destruct (Hall i0 (or_introl eq_refl)) as (Hf0 & b0 & Hb0).
  destruct (vec_set_in_range (buckets f) (slot f x i0) false) as [v' Hv'];
    [eapply vec_at_Some_range; eauto|].
  assert (E1 : remove_body x i0 tt f = Some (tt, set_buckets v' f)).
  { unfold remove_body.
    rewrite (bind_step _ _ f (slot f x i0) f)
      by (apply hash_mod_m_Some; auto).
    rewrite (bind_step _ _ f (region f (slot f x i0)) f)
      by (apply region_of_Some; auto).
    rewrite (bind_step _ _ f false f) by (by apply read_collision_Some).
    apply write_bucket_Some. eauto. }
  destruct (IH (set_buckets v' f)) as (f' & E2); auto.
  - intros i Hi. rewrite slot_set_buckets, region_set_buckets. simpl.
    destruct (Hall i (or_intror Hi)) as (Hf & b & Hb). split; [exact Hf|].
    eapply vec_at_is_Some_length; [|exact Hb].
    eapply vec_set_length; eauto.
  - exists f'. by rewrite (bind_step _ _ _ _ _ E1).
Qed.

(** X10: insertion followed by removal is the identity where nothing
    collides: if the membership indices of [x] are pairwise distinct, their
    bits are unset and their regions unflagged, then [add x] followed by
    [testAndRemove x] returns true and leaves exactly the filter it started
    from: bits, flags and count. *)
Theorem X10_add_then_remove_restores_the_filter x f :
  0 < m f -> regionSize f <> 0 -> 0 <= count f < 2 ^ 32 ->
  NoDup (slots f x) ->
  (forall h, In h (slots f x) ->
     vec_at (buckets f) h = Some false /\
     vec_at (collisions f) (region f h) = Some false) ->
  run [Add x; TestAndRemove x] f
  = Some ([EAdd x; ETestAndRemove x true], f).
Proof.
  intros Hm Hr Hc Hnd Hall. unfold slots in *.
  assert (Hin : forall i, In i (seeds_upto (k f)) ->
            In (slot f x i) (map (slot f x) (seeds_upto (k f))))
    by (intros i Hi; by apply in_map).
  (* the insertion *)
  destruct (add_loop_fresh x (seeds_upto (k f)) f) as (f1 & E1 & C1);
    [lia|exact Hnd|intros i Hi; by apply Hall, Hin|].
  pose proof (add_loop_spec _ _ _ _ _ E1)
    as (((Sm1 & Sr1 & Sk1 & Sb1 & Sc1) & N1 & _ & _) & Set1).
  pose proof (add_loop_frame _ _ _ _ _ E1) as (U1 & _).
  set (fa := set_count (uint32 (count f1 + 1)) f1).
  assert (Ea : add x f = Some (tt, fa)) by (by rewrite add_unfold, E1).
  (* the removal *)
  assert (D : forall i, In i (seeds_upto (k f)) ->
            m fa <> 0 /\ vec_at (buckets fa) (slot fa x i) = Some true).
  { intros i Hi. simpl. rewrite Sm1. split; [lia|].
    rewrite (slot_shape f fa) by exact Sm1. by apply Set1. }
  destruct (remove_loop_unflagged_defined x (seeds_upto (k f)) fa)
    as (f2 & E2).
  { simpl. lia. }
  { simpl. congruence. }
  { intros i Hi. rewrite (slot_shape f fa), (region_shape f fa) by assumption.
    simpl. rewrite C1. split; [by apply Hall, Hin|].
    destruct (D i Hi) as (_ & Hb).
    rewrite (slot_shape f fa) in Hb by exact Sm1. eauto. }
  pose proof (remove_loop_spec _ _ _ _ _ E2)
    as ((Sm2 & Sr2 & Sk2 & Sb2 & Sc2) & C2 & N2 & _).
  pose proof (remove_loop_exact _ _ _ _ _ E2) as (_ & U2 & Cl2 & _).
  assert (Er : testAndRemove x fa
               = Some (true, set_count (uint32 (count f2 - 1)) f2)).
  { rewrite testAndRemove_unfold.
    change (k fa) with (k f1). rewrite Sk1.
    rewrite scan_loop_defined
      by (intros i Hi; destruct (D i Hi); eauto).
    assert (A : all_set fa x (seeds_upto (k f)) = true)
      by (apply all_set_true; intros i Hi; by apply D).
    rewrite A. simpl. by rewrite E2. }
  assert (Efin : set_count (uint32 (count f2 - 1)) f2 = f).
  { apply dbf_eq; simpl.
    - apply vec_ext. intros h.
      destruct (in_dec Z.eq_dec h (map (slot f x) (seeds_upto (k f))))
        as [Hh|Hh].
      + destruct (Hall h Hh) as (Hb & Hf). rewrite Hb.
        apply in_map_iff in Hh. destruct Hh as (i & <- & Hi).
        rewrite <- (slot_shape f fa) by exact Sm1. apply Cl2; [exact Hi|].
        rewrite (slot_shape f fa), (region_shape f fa) by assumption.
        simpl. rewrite C1. apply Hall. by apply Hin.
      + rewrite U2.
        * simpl. by apply U1.
        * by rewrite (slot_shape_fun f fa) by exact Sm1.
    - rewrite C2. simpl. exact C1.
    - rewrite Sm2. simpl. exact Sm1.
    - rewrite Sr2. simpl. exact Sr1.
    - rewrite Sk2. simpl. exact Sk1.
    - rewrite N2. simpl. rewrite N1.
      replace (uint32 (count f + 1) - 1) with (uint32 (count f + 1) + -1)
        by lia.
      rewrite uint32_uint32_add.
      replace (count f + 1 + -1) with (count f) by lia.
      by apply uint32_small. }
  rewrite Efin in Er.
  apply (run_cons_step _ _ _ _ fa); [by apply (call_Add_step _ _ tt)|].
  apply (run_cons_step _ _ _ _ f); [|reflexivity].
  simpl. by rewrite (bind_step _ _ _ _ _ Er).
Qed.

(** ** Where the calls are defined, and where they are not *)

(** X11: memory safety under exact regions: when the sizing is valid and
    [r] divides the number [optM - r] of membership bits, the constructor
    succeeds and every sequence of calls on the filter runs to the end
    without an out-of-range access or a division by zero. *)
Theorem X11_calls_defined_when_r_divides_m optM optK r g ops :
  valid_sizing optM optK r -> (optM - r) mod r = 0 ->
  exists f0 log f,
    construct optM optK r g = Some f0 /\ run ops f0 = Some (log, f).
Proof.
  intros V Hdiv. pose proof V as (Hr & HM & HK).
  assert (Hc : exists f0, construct optM optK r g = Some f0).
  { unfold construct. destruct (decide (r = 0)); [lia|eauto]. }
  destruct Hc as (f0 & Hc).
  assert (Hge : optM - r >= r).
  { pose proof (Z.div_mod (optM - r) r ltac:(lia)) as Hdm.
    rewrite Hdiv in Hdm.
    assert (0 < (optM - r) / r) by nia. nia. }
  pose proof (construct_geometry _ _ _ _ _ V Hdiv Hge Hc) as G.
  destruct (run_defined ops f0 G) as (log & f & E). eauto.
Qed.

Lemma remove_body_undefined x i f :
  flag_lookup_undefined f (slot f x i) -> remove_body x i tt f = None.
Proof.
  intros U.
  cbv [remove_body bind hash_mod_m region_of read_collision gets lift ret
       undefined].
  destruct (decide (m f = 0)); [reflexivity|].
  destruct (decide (regionSize f = 0)); [reflexivity|].
  destruct U as [? | ->]; [contradiction|reflexivity].
Qed.

Lemma remove_loop_undefined x l i : forall f,
  In i l -> flag_lookup_undefined f (slot f x i) ->
  for_seeds l (remove_body x) tt f = None.
Proof.
  induction l as [|i0 l IH]; simpl; intros f Hi U; [destruct Hi|].
  destruct (remove_body x i0 tt f) as [[[] f1]|] eqn:E1;
    [|by apply bind_None_l].
  rewrite (bind_step _ _ _ _ _ E1).
  destruct Hi as [->|Hi].
  - rewrite remove_body_undefined in E1 by exact U. discriminate.
  - apply IH; [exact Hi|]. apply remove_body_spec in E1.
    destruct E1 as [(_ & ->)|(_ & v' & _ & ->)]; [exact U|].
    exact U.
Qed.

Lemma add_body_undefined x i f :
  vec_at (buckets f) (slot f x i) = Some true ->
  flag_lookup_undefined f (slot f x i) -> add_body x i tt f = None.
Proof.
  intros Hb U.
  cbv [add_body bind hash_mod_m read_bucket region_of write_collision gets
       lift ret undefined modify].
  destruct (decide (m f = 0)); [reflexivity|]. rewrite Hb.
  destruct (decide (regionSize f = 0)); [reflexivity|].
  destruct U as [?|U]; [contradiction|].
  apply vec_at_None in U. unfold vec_set.
  destruct (decide _); [contradiction|reflexivity].
Qed.

Lemma add_loop_undefined x l i : forall f,
  In i l -> vec_at (buckets f) (slot f x i) = Some true ->
  flag_lookup_undefined f (slot f x i) ->
  for_seeds l (add_body x) tt f = None.
Proof.
  induction l as [|i0 l IH]; simpl; intros f Hi Hb U; [destruct Hi|].
  destruct (add_body x i0 tt f) as [[[] f1]|] eqn:E1;
    [|by apply bind_None_l].
  rewrite (bind_step _ _ _ _ _ E1).
  destruct Hi as [->|Hi].
  - rewrite add_body_undefined in E1 by assumption. discriminate.
  - apply add_body_grows in E1.
    destruct E1 as (((Sm & Sr & _ & _ & Sc) & _ & Bm & _) & _).
    apply IH; [exact Hi| |].
    + rewrite (slot_shape f f1) by exact Sm. auto.
    + unfold flag_lookup_undefined in *.
      rewrite (slot_shape f f1), (region_shape f f1), Sr by assumption.
      destruct U as [?|U]; [by left|right].
      eapply vec_at_None_length; eauto.
Qed.

(** X12: where the calls are undefined: if for one membership index of [x]
    the lookup [collisions[index / regionSize]] is a division by zero or
    falls outside the flag vector, then [testAndRemove x] is undefined
    whenever [x] tests as a member, and [add x] and [testAndAdd x] are
    undefined whenever the bit at that index is already set. *)
Theorem X12_flag_lookup_out_of_range_is_undefined x f i :
  0 <= i < k f -> flag_lookup_undefined f (slot f x i) ->
  (test x f = Some (true, f) -> testAndRemove x f = None) /\
  (vec_at (buckets f) (slot f x i) = Some true ->
   add x f = None /\ testAndAdd x f = None).
Proof.
  intros Hi U. apply in_seeds_upto in Hi. split.
  - intros T. rewrite test_true_iff in T. rewrite testAndRemove_unfold.
    rewrite scan_loop_defined
      by (intros j Hj; destruct (T j Hj); eauto).
    assert (A : all_set f x (seeds_upto (k f)) = true)
      by (apply all_set_true; intros j Hj; by apply T).
    rewrite A. simpl.
    by rewrite (remove_loop_undefined x _ i f Hi U).
  - intros Hb.
    assert (Ea : add x f = None)
      by (by rewrite add_unfold, (add_loop_undefined x _ i f Hi Hb U)).
    split; [exact Ea|]. by rewrite testAndAdd_as_add, Ea.
Qed.

(** X13: more flags than bits: with valid sizing but [r] larger than the
    number [optM - r] of membership bits, the constructor computes
    [regionSize = 0], and adding any item twice is undefined: the second
    [add] (if the first one returned) divides by zero. *)
Theorem X13_second_add_undefined_when_regionSize_is_zero optM optK r g x :
  valid_sizing optM optK r -> optM - r < r ->
  exists f0, construct optM optK r g = Some f0 /\ regionSize f0 = 0 /\
             run [Add x; Add x] f0 = None.
Proof.
  intros (Hr & HM & HK) Hlt. unfold construct.
  destruct (decide (r = 0)); [lia|]. eexists. split; [reflexivity|].
  set (f0 := mkDBF _ _ _ _ _ _).
  assert (Hu : uint32 (optM - r) = optM - r)
    by (unfold uint32; apply Z.mod_small; lia).
  assert (Hrs : regionSize f0 = 0)
    by (simpl; rewrite Hu; apply Z.div_small; lia).
  split; [exact Hrs|].
  change (run [Add x; Add x] f0) with
    (bind (call (Add x)) (fun e => bind (run [Add x])
                                     (fun es => ret (e :: es))) f0).
  destruct (call (Add x) f0) as [[e f1]|] eqn:E1; [|by apply bind_None_l].
  rewrite (bind_step _ _ _ _ _ E1). apply bind_None_l.
  apply call_Add_Some in E1. destruct E1 as [E1 _].
  apply add_effect in E1. destruct E1 as ((Sm & Sr & Sk & _) & _ & _ & _ & All).
  assert (H0 : In 0 (seeds_upto (k f0))) by (apply in_seeds_upto; simpl; lia).
  destruct (All 0 H0) as (_ & Hb & _).
  simpl. apply bind_None_l. apply bind_None_l.
  rewrite add_unfold.
  rewrite (add_loop_undefined x _ 0 f1); [reflexivity| | |].
  - by rewrite Sk.
  - by rewrite (slot_shape f0 f1) by exact Sm.
  - left. congruence.
Qed.

(** X14: [test] is always safe on a validly sized filter: it reads only the
    membership vector, at indices below [m], so after any sequence of calls
    on a filter constructed with valid sizing it returns, whether or not the
    regions cover the membership range. *)
Theorem X14_test_defined_on_valid_sizing optM optK r g f0 ops log f x :
  valid_sizing optM optK r ->
  construct optM optK r g = Some f0 ->
  run ops f0 = Some (log, f) ->
  exists b, test x f = Some (b, f).
Proof.
  intros V Hc E.
  assert (W : well_sized f).
  { eapply well_sized_shape; [eapply run_same_shape; eauto|].
    eapply construct_well_sized; eauto. }
  eexists. unfold test, bind, gets. apply test_loop_defined.
  intros i _. by apply well_sized_defined.
Qed.

Lemma seeds_upto_nonempty kk :
  0 < kk -> exists rest, seeds_upto kk = 0 :: rest.
Proof.
  intros Hk. unfold seeds_upto.
  destruct (Z.to_nat kk) as [|n] eqn:E; [lia|]. simpl. eauto.
Qed.

(** X15: no membership bits: when [r] equals [optM] the constructor builds a
    filter with [m = 0], and every membership call on it is undefined: the
    first [hash %= m] is a remainder by zero. *)
Theorem X15_no_membership_bits_makes_calls_undefined optK r g x :
  0 < r < 2 ^ 32 -> 0 < optK ->
  exists f0, construct r optK r g = Some f0 /\ m f0 = 0 /\
    test x f0 = None /\ add x f0 = None /\
    testAndAdd x f0 = None /\ testAndRemove x f0 = None.
Proof.
  intros Hr Hk. unfold construct. destruct (decide (r = 0)); [lia|].
  eexists. split; [reflexivity|]. set (f0 := mkDBF _ _ _ _ _ _).
  assert (Hm : m f0 = 0) by (simpl; by rewrite Z.sub_diag).
  assert (Hh : forall i, hash_mod_m x i f0 = None).
  { intros i. unfold hash_mod_m. destruct (decide (m f0 = 0)); [done|].
    contradiction. }
  destruct (seeds_upto_nonempty (k f0) Hk) as (rest & Hs).
  assert (Ea : add x f0 = None).
  { rewrite add_unfold, Hs. simpl. unfold add_body at 1.
    rewrite (bind_None_l (bind _ _)); [reflexivity|].
    by apply bind_None_l. }
  split; [exact Hm|]. split; [|split; [exact Ea|split]].
  - unfold test, bind at 1, gets. rewrite Hs. simpl. by apply bind_None_l.
  - by rewrite testAndAdd_as_add, Ea.
  - rewrite testAndRemove_unfold, Hs. simpl. unfold scan_body at 1.
    rewrite (bind_None_l (bind _ _)); [reflexivity|].
    by apply bind_None_l.
Qed.

End Proofs.

(** * Concrete runs, with MurmurHash3 as the hash *)

Example small_filter_first_add :
  run (H := murmur) [Add (le32 2)] small_filter
  = Some ([EAdd (le32 2)], small_one).
Proof. vm_compute. reflexivity. Qed.

Example small_filter_second_add :
  run (H := murmur) [Add (le32 2)] small_one
  = Some ([EAdd (le32 2)], small_two).
Proof. vm_compute. reflexivity. Qed.

Example small_filter_slots :
  map (slot (H := murmur) small_filter (le32 2)) [0; 1] = [7; 4] /\
  map (slot (H := murmur) small_filter (le32 4)) [0; 1] = [7; 7] /\
  map (slot (H := murmur) small_filter (le32 17)) [0; 1] = [7; 4].
Proof. vm_compute. repeat split. Qed.

(** C1: the collision lookups are not always in bounds.  In the run of
    test.cpp (a filter with 486 membership bits, regions of width 3 and 128
    collision flags), the third seed sends the bytes of 4 to membership
    index 477, whose region index 159 is past the last collision flag;
    [testAndRemove] of that item reads the flag and is undefined. *)
Theorem C1_test_cpp_reads_past_the_collision_flags :
  exists log f,
    run (H := murmur)
      [Add (le32 2); Add (le32 4); Add (le32 6);
       Test (le32 2); Test (le32 4); Test (le32 6); Test (le32 3);
       TestAndRemove (le32 2)] (test_cpp_filter 0) = Some (log, f) /\
    slot (H := murmur) f (le32 4) 2 = 477 /\
    region f 477 = 159 /\
    Z.of_nat (length (collisions f)) = 128 /\
    vec_at (collisions f) 159 = None /\
    testAndRemove (H := murmur) (le32 4) f = None.
Proof.
  eexists. eexists. split; [vm_compute; reflexivity|].
  vm_compute. repeat split.
Qed.

(** C4: right after construction both bit vectors are all zero, but the
    constructor never assigns [count]: [getCount] returns whatever the
    object's storage held, here 7, although test.cpp relies on 0. *)
Theorem C4_constructor_leaves_count_indeterminate :
  exists f,
    construct 614 4 128 7 = Some f /\
    buckets f = replicate 486 false /\
    collisions f = replicate 128 false /\
    getCount f = Some (7, f).
Proof. eexists. split; [reflexivity|]. repeat split. Qed.

(** C10: the counter is decremented modulo [2^32] without an underflow
    guard: a [testAndRemove] that returns true on a filter whose count is 0
    leaves the count at [2^32 - 1], and such a call exists: after
    [reset; add a; add a; testAndRemove a; testAndRemove a] the count is 0
    and the bits of [a] are still set, so [testAndRemove] of the never-added
    bytes of 17, which hash to the same indices, returns true. *)
Theorem C10_count_wraps_below_zero :
  (forall (H : Hasher) x f f',
     count f = 0 -> testAndRemove x f = Some (true, f') ->
     getCount f' = Some (2 ^ 32 - 1, f')) /\
  exists log f f',
    run (H := murmur)
      [Reset; Add (le32 2); Add (le32 2);
       TestAndRemove (le32 2); TestAndRemove (le32 2)] small_filter
    = Some (log, f) /\
    getCount f = Some (0, f) /\
    testAndRemove (H := murmur) (le32 17) f = Some (true, f') /\
    getCount f' = Some (4294967295, f').
Proof.
  split.
  - intros H x f f' Hc E. apply testAndRemove_effect in E.
    destruct E as (_ & _ & _ & Hn & _). unfold getCount, gets.
    rewrite Hn, Hc. reflexivity.
  - eexists. eexists. eexists. split; [vm_compute; reflexivity|].
    split; [reflexivity|]. split; [vm_compute; reflexivity|]. reflexivity.
Qed.

Lemma C10_witness :
  count small_filter = 0 /\
  testAndRemove (H := murmur) (le32 2)
    (mkDBF (buckets small_two) (collisions small_two) 8 2 2 0)
  = Some (true, mkDBF (buckets small_two) (collisions small_two) 8 2 2
                      4294967295) /\
  getCount (mkDBF (buckets small_two) (collisions small_two) 8 2 2 4294967295)
  = Some (2 ^ 32 - 1,
          mkDBF (buckets small_two) (collisions small_two) 8 2 2 4294967295).
Proof.
  split; [reflexivity|]. split; [vm_compute; reflexivity|].
  apply (proj1 C10_count_wraps_below_zero murmur (le32 2)
           (mkDBF (buckets small_two) (collisions small_two) 8 2 2 0));
    [reflexivity|vm_compute; reflexivity].
Defined.

(** The claim C2 as stated fails: after [add] of the bytes of 2, a
    [testAndRemove] of the never-added bytes of 4 returns true and clears
    membership bit 7, after which [test] of the bytes of 2 returns false. *)
Lemma C2_counterexample :
  ~ (forall ops log f x l1 l2,
       run (H := murmur) ops small_filter = Some (log, f) ->
       log = l1 ++ EAdd x :: l2 ->
       (forall e', In e' l2 -> e' <> ETestAndRemove x true /\ e' <> EReset) ->
       test (H := murmur) x f = Some (true, f)).
Proof.
  intros C.
  specialize (C [Add (le32 2); TestAndRemove (le32 4)]
                [EAdd (le32 2); ETestAndRemove (le32 4) true]
                (mkDBF [false; false; false; false; true; false; false; false]
                       (replicate 4 false) 8 2 2 0)
                (le32 2) [] [ETestAndRemove (le32 4) true]).
  assert (E : test (H := murmur) (le32 2)
                (mkDBF [false; false; false; false; true; false; false; false]
                       (replicate 4 false) 8 2 2 0)
              = Some (false,
                  mkDBF [false; false; false; false; true; false; false; false]
                        (replicate 4 false) 8 2 2 0))
    by (vm_compute; reflexivity).
  rewrite E in C. clear E.
  enough (Some (false,
            mkDBF [false; false; false; false; true; false; false; false]
                  (replicate 4 false) 8 2 2 0)
          = Some (true,
            mkDBF [false; false; false; false; true; false; false; false]
                  (replicate 4 false) 8 2 2 0)) by discriminate.
  apply C.
  - vm_compute. reflexivity.
  - reflexivity.
  - intros e' [<-|[]]. split; discriminate.
Qed.

Lemma C2_witness :
  run (H := murmur) [Add (le32 2); Add (le32 4); TestAndRemove (le32 4)]
    small_filter
  = Some ([EAdd (le32 2); EAdd (le32 4); ETestAndRemove (le32 4) true],
          mkDBF (buckets small_one) [false; false; false; true] 8 2 2 1) /\
  test (H := murmur) (le32 2)
    (mkDBF (buckets small_one) [false; false; false; true] 8 2 2 1)
  = Some (true, mkDBF (buckets small_one) [false; false; false; true] 8 2 2 1).
Proof.
  split; [vm_compute; reflexivity|].
  apply (C2_no_false_negatives_for_held_items (H := murmur)
           [Add (le32 2); Add (le32 4); TestAndRemove (le32 4)] small_filter
           [EAdd (le32 2); EAdd (le32 4); ETestAndRemove (le32 4) true]
           _ (le32 2) [] (EAdd (le32 2))
           [EAdd (le32 4); ETestAndRemove (le32 4) true]).
  - vm_compute. reflexivity.
  - simpl. repeat split. left. reflexivity.
  - reflexivity.
  - left. reflexivity.
  - intros e' [<-|[<-|[]]]; split; discriminate.
Defined.

(** The claim C3 as stated fails: starting from count 0, two [add]s and
    three [testAndRemove]s that return true leave [getCount] at
    [2^32 - 1], not at [2 - 3]. *)
Lemma C3_counterexample :
  ~ (forall ops f log f',
       count f = 0 ->
       run (H := murmur) ops f = Some (log, f') ->
       existsb is_reset log = false ->
       getCount f' = Some (additions log - removals log, f')).
Proof.
  intros C.
  specialize (C [Add (le32 2); Add (le32 2); TestAndRemove (le32 2);
                 TestAndRemove (le32 2); TestAndRemove (le32 2)]
                small_filter
                [EAdd (le32 2); EAdd (le32 2); ETestAndRemove (le32 2) true;
                 ETestAndRemove (le32 2) true; ETestAndRemove (le32 2) true]
                (mkDBF (buckets small_two) (collisions small_two) 8 2 2
                       4294967295)
                eq_refl).
  assert (E : getCount (mkDBF (buckets small_two) (collisions small_two)
                              8 2 2 4294967295)
              = Some (4294967295,
                      mkDBF (buckets small_two) (collisions small_two)
                            8 2 2 4294967295)) by reflexivity.
  rewrite E in C. clear E.
  enough (Some (4294967295,
                mkDBF (buckets small_two) (collisions small_two) 8 2 2
                      4294967295)
          = Some (2 - 3,
                mkDBF (buckets small_two) (collisions small_two) 8 2 2
                      4294967295)) by discriminate.
  apply C; vm_compute; reflexivity.
Qed.

Lemma C3_witness :
  run (H := murmur)
    [Add (le32 2); TestAndAdd (le32 4); Test (le32 3); TestAndRemove (le32 3);
     TestAndRemove (le32 4)] small_filter
  = Some ([EAdd (le32 2); ETestAndAdd (le32 4) true; ETest (le32 3) false;
           ETestAndRemove (le32 3) false; ETestAndRemove (le32 4) true],
          mkDBF (buckets small_one) [false; false; false; true] 8 2 2 1) /\
  getCount (mkDBF (buckets small_one) [false; false; false; true] 8 2 2 1)
  = Some (1, mkDBF (buckets small_one) [false; false; false; true] 8 2 2 1).
Proof.
  split; [vm_compute; reflexivity|].
  apply (proj2 (C3_count_accounting_modular (H := murmur)
           [Add (le32 2); TestAndAdd (le32 4); Test (le32 3);
            TestAndRemove (le32 3); TestAndRemove (le32 4)] small_filter
           [EAdd (le32 2); ETestAndAdd (le32 4) true; ETest (le32 3) false;
            ETestAndRemove (le32 3) false; ETestAndRemove (le32 4) true]
           (mkDBF (buckets small_one) [false; false; false; true] 8 2 2 1)
           ltac:(simpl; lia) ltac:(vm_compute; reflexivity) eq_refl));
    [reflexivity|vm_compute; split; [discriminate|reflexivity]].
Defined.

(** The claim C5 as stated fails in its "never seen before" part: after
    [add] of the bytes of 2, [testAndAdd] of the bytes of 4, which no call
    has mentioned, returns true, because both seeds send them to membership
    index 7, which is already set. *)
Lemma C5_counterexample :
  ~ (forall ops log f x b f',
       run (H := murmur) ops small_filter = Some (log, f) ->
       (forall e, In e log -> event_item e <> Some x) ->
       testAndAdd (H := murmur) x f = Some (b, f') ->
       b = false).
Proof.
  intros C.
  enough (true = false) by discriminate.
  apply (C [Add (le32 2)] [EAdd (le32 2)] small_one (le32 4) true
           (mkDBF (buckets small_one) [false; false; false; true] 8 2 2 2)).
  - vm_compute. reflexivity.
  - intros e [<-|[]]. discriminate.
  - vm_compute. reflexivity.
Qed.

Lemma C5_witness :
  testAndAdd (H := murmur) (le32 2) small_filter = Some (false, small_one) /\
  test (H := murmur) (le32 2) small_filter = Some (false, small_filter) /\
  add (H := murmur) (le32 2) small_filter = Some (tt, small_one) /\
  test (H := murmur) (le32 2) small_one = Some (true, small_one).
Proof.
  split; [vm_compute; reflexivity|].
  pose proof (proj2 (C5_testAndAdd_is_test_then_add (H := murmur)
                (le32 2) small_filter) false small_one
                ltac:(vm_compute; reflexivity)) as (Ht & Ha & Ht' & _).
  exact (conj Ht (conj Ha Ht')).
Defined.

Lemma C6_witness :
  0 < m small_filter /\
  Z.of_nat (length (buckets small_filter)) = m small_filter /\
  0 <= 0 < k small_filter /\
  vec_at (buckets small_filter) (slot (H := murmur) small_filter (le32 2) 0)
  = Some false /\
  testAndRemove (H := murmur) (le32 2) small_filter
  = Some (false, small_filter).
Proof.
  split; [reflexivity|]. split; [reflexivity|].
  split; [simpl; lia|]. split; [vm_compute; reflexivity|].
  apply (C6_failed_removal_changes_nothing (H := murmur) (le32 2)
           small_filter 0);
    [reflexivity|reflexivity|simpl; lia|vm_compute; reflexivity].
Defined.

Lemma C7_witness :
  run (H := murmur) [TestAndRemove (le32 2); TestAndRemove (le32 4)] small_two
  = Some ([ETestAndRemove (le32 2) true; ETestAndRemove (le32 4) true],
          mkDBF (buckets small_two) (collisions small_two) 8 2 2 0) /\
  vec_at (collisions small_two) (region small_two 7) = Some true /\
  vec_at (buckets small_two) 7 = Some true /\
  vec_at (buckets (mkDBF (buckets small_two) (collisions small_two) 8 2 2 0)) 7
  = Some true /\
  testAndRemove (H := murmur) (le32 4) small_one
  = Some (true,
          mkDBF [false; false; false; false; true; false; false; false]
                (replicate 4 false) 8 2 2 0) /\
  vec_at (collisions small_one) (region small_one 7) = Some false.
Proof.
  split; [vm_compute; reflexivity|]. split; [reflexivity|].
  split; [reflexivity|]. split.
  - apply (proj1 (C7_removal_gated_by_collision (H := murmur) small_two 7)
             [TestAndRemove (le32 2); TestAndRemove (le32 4)]
             [ETestAndRemove (le32 2) true; ETestAndRemove (le32 4) true]
             (mkDBF (buckets small_two) (collisions small_two) 8 2 2 0));
      [vm_compute; reflexivity|reflexivity|reflexivity|reflexivity].
  - split; [vm_compute; reflexivity|].
    apply (proj2 (C7_removal_gated_by_collision (H := murmur) small_one 7)
             (le32 4) true
             (mkDBF [false; false; false; false; true; false; false; false]
                    (replicate 4 false) 8 2 2 0));
      [vm_compute; reflexivity|reflexivity|vm_compute; discriminate].
Defined.

Lemma C8_witness :
  valid_sizing 12 2 4 /\
  construct 12 2 4 0 = Some small_filter /\
  run (H := murmur) [Add (le32 2); Add (le32 2)] small_filter
  = Some ([EAdd (le32 2); EAdd (le32 2)], small_two) /\
  exists f', reset small_two = Some (tt, f') /\
    (forall x, test (H := murmur) x f' = Some (false, f')) /\
    getCount f' = Some (0, f') /\
    (forall i, vec_at (buckets f') i <> Some true) /\
    (forall j, vec_at (collisions f') j <> Some true).
Proof.
  assert (V : valid_sizing 12 2 4) by (unfold valid_sizing; lia).
  split; [exact V|]. split; [reflexivity|].
  split; [vm_compute; reflexivity|].
  apply (C8_reset_empties_the_filter (H := murmur) 12 2 4 0 small_filter
           [Add (le32 2); Add (le32 2)] [EAdd (le32 2); EAdd (le32 2)]
           small_two V eq_refl).
  vm_compute. reflexivity.
Defined.

Lemma C9_witness :
  test (H := murmur) (le32 2) small_one = Some (true, small_one) /\
  small_one = small_one /\ buckets small_one = buckets small_one /\
  collisions small_one = collisions small_one /\
  count small_one = count small_one.
Proof.
  split; [vm_compute; reflexivity|].
  apply (C9_test_has_no_side_effects (H := murmur) (le32 2) small_one true
           small_one).
  vm_compute. reflexivity.
Defined.

Example small_filter_geometry : geometry_ok small_filter.
Proof. unfold geometry_ok, regions_cover. simpl. repeat split; lia. Qed.

Example test_cpp_filter_regions_fall_short g :
  ~ regions_cover (test_cpp_filter g).
Proof. unfold regions_cover. simpl. intros (_ & Hc). vm_compute in Hc. discriminate. Qed.

(** * Concrete instances of the further properties *)

Lemma X1_witness :
  construct 12 2 4 0 = Some small_filter /\
  run (H := murmur) [Add (le32 2); Reset; Add (le32 2); Add (le32 2)]
    small_filter
  = Some ([EAdd (le32 2); EReset; EAdd (le32 2); EAdd (le32 2)], small_two) /\
  m small_two = uint32 (12 - 4) /\ regionSize small_two = uint32 (12 - 4) / 4 /\
  k small_two = 2 /\
  Z.of_nat (length (buckets small_two)) = m small_two /\
  length (collisions small_two) = Z.to_nat 4.
Proof.
  split; [reflexivity|]. split; [vm_compute; reflexivity|].
  apply (X1_sizes_fixed_at_construction (H := murmur) 12 2 4 0 small_filter
           [Add (le32 2); Reset; Add (le32 2); Add (le32 2)]
           [EAdd (le32 2); EReset; EAdd (le32 2); EAdd (le32 2)] small_two);
    [reflexivity|vm_compute; reflexivity].
Defined.

Lemma X2_witness :
  construct 12 2 4 7 = Some (set_count 7 small_filter) /\
  run (H := murmur) [Add (le32 2); Add (le32 2); TestAndRemove (le32 2)]
    (set_count 7 small_filter)
  = Some ([EAdd (le32 2); EAdd (le32 2); ETestAndRemove (le32 2) true],
          set_count 8 small_two) /\
  exists f', reset (set_count 8 small_two) = Some (tt, f') /\
             construct 12 2 4 0 = Some f'.
Proof.
  split; [reflexivity|]. split; [vm_compute; reflexivity|].
  apply (X2_reset_restores_the_constructed_filter (H := murmur) 12 2 4 7
           (set_count 7 small_filter)
           [Add (le32 2); Add (le32 2); TestAndRemove (le32 2)]
           [EAdd (le32 2); EAdd (le32 2); ETestAndRemove (le32 2) true]
           (set_count 8 small_two));
    [reflexivity|vm_compute; reflexivity].
Defined.

Lemma X3_witness :
  testAndRemove (H := murmur) (le32 4) small_one
  = Some (true,
          mkDBF [false; false; false; false; true; false; false; false]
                (replicate 4 false) 8 2 2 0) /\
  test (H := murmur) (le32 4) small_one = Some (true, small_one).
Proof.
  split; [vm_compute; reflexivity|].
  apply (X3_testAndRemove_returns_what_test_returns (H := murmur) (le32 4)
           small_one true
           (mkDBF [false; false; false; false; true; false; false; false]
                  (replicate 4 false) 8 2 2 0)).
  vm_compute. reflexivity.
Defined.

Lemma X4_witness :
  test (H := murmur) (le32 4) small_one = Some (true, small_one) /\
  exists log f',
    run (H := murmur) [Add (le32 3); TestAndRemove (le32 5); Test (le32 9)]
      small_one = Some (log, f') /\
    existsb is_reset log = false /\ existsb is_removal log = false /\
    test (H := murmur) (le32 4) f' = Some (true, f').
Proof.
  split; [vm_compute; reflexivity|].
  eexists. eexists. split; [vm_compute; reflexivity|].
  split; [reflexivity|]. split; [reflexivity|].
  eapply (X4_membership_persists_without_removal (H := murmur) (le32 4)
            small_one
            [Add (le32 3); TestAndRemove (le32 5); Test (le32 9)]);
    [vm_compute; reflexivity|vm_compute; reflexivity
    |reflexivity|reflexivity].
Defined.


Lemma X6_witness :
  testAndRemove (H := murmur) (le32 2) small_one
  = Some (true, small_filter) /\
  0 <= 0 < k small_one /\
  vec_at (collisions small_one)
    (region small_one (slot (H := murmur) small_one (le32 2) 0)) = Some false /\
  vec_at (buckets small_filter) (slot (H := murmur) small_one (le32 2) 0)
  = Some false /\
  test (H := murmur) (le32 2) small_filter = Some (false, small_filter).
Proof.
  split; [vm_compute; reflexivity|]. split; [simpl; lia|].
  split; [vm_compute; reflexivity|].
  apply (X6_removal_clears_an_unflagged_bit (H := murmur) (le32 2) small_one
           small_filter 0);
    [vm_compute; reflexivity|simpl; lia|vm_compute; reflexivity].
Defined.

Lemma X7_witness :
  testAndRemove (H := murmur) (le32 2) small_two
  = Some (true, set_count 1 small_two) /\
  set_count 1 small_two = set_count (uint32 (count small_two - 1)) small_two /\
  test (H := murmur) (le32 2) (set_count 1 small_two)
  = Some (true, set_count 1 small_two).
Proof.
  split; [vm_compute; reflexivity|].
  apply (X7_removal_in_flagged_regions_only_decrements (H := murmur) (le32 2)
           small_two (set_count 1 small_two)); [vm_compute; reflexivity|].
  intros i Hi. assert (i = 0 \/ i = 1) as [-> | ->] by (simpl in Hi; lia);
    vm_compute; reflexivity.
Defined.

Lemma X8_witness :
  testAndRemove (H := murmur) (le32 4) small_one
  = Some (true,
          mkDBF [false; false; false; false; true; false; false; false]
                (replicate 4 false) 8 2 2 0) /\
  collisions (mkDBF [false; false; false; false; true; false; false; false]
                    (replicate 4 false) 8 2 2 0) = collisions small_one /\
  vec_at [false; false; false; false; true; false; false; false] 4
  = vec_at (buckets small_one) 4.
Proof.
  split; [vm_compute; reflexivity|].
  destruct (X8_testAndRemove_frame (H := murmur) (le32 4) small_one true
              (mkDBF [false; false; false; false; true; false; false; false]
                     (replicate 4 false) 8 2 2 0)
              ltac:(vm_compute; reflexivity)) as (Hc & _ & Hu).
  split; [exact Hc|]. apply (Hu 4).
  vm_compute. intros [E|[E|[]]]; discriminate E.
Defined.

Lemma X9_witness :
  add (H := murmur) (le32 4) small_one
  = Some (tt, mkDBF (buckets small_one) [false; false; false; true] 8 2 2 2) /\
  vec_at (buckets small_one) 4 = Some true /\
  vec_at (buckets (mkDBF (buckets small_one) [false; false; false; true]
                         8 2 2 2)) 4 = Some true /\
  vec_at [false; false; false; true] 2 = vec_at (collisions small_one) 2.
Proof.
  split; [vm_compute; reflexivity|]. split; [reflexivity|].
  destruct (X9_add_frame (H := murmur) (le32 4) small_one tt
              (mkDBF (buckets small_one) [false; false; false; true] 8 2 2 2)
              ltac:(vm_compute; reflexivity)) as (Hb & _ & _ & Hf).
  split; [apply Hb; reflexivity|]. apply (Hf 2).
  vm_compute. intros [E|[E|[]]]; discriminate E.
Defined.

Lemma X10_witness :
  0 < m small_filter /\ regionSize small_filter <> 0 /\
  0 <= count small_filter < 2 ^ 32 /\
  slots (H := murmur) small_filter (le32 2) = [7; 4] /\
  run (H := murmur) [Add (le32 2); TestAndRemove (le32 2)] small_filter
  = Some ([EAdd (le32 2); ETestAndRemove (le32 2) true], small_filter).
Proof.
  split; [reflexivity|]. split; [discriminate|]. split; [simpl; lia|].
  split; [vm_compute; reflexivity|].
  apply (X10_add_then_remove_restores_the_filter (H := murmur) (le32 2)
           small_filter);
    [reflexivity|discriminate|simpl; lia| |].
  - apply (bool_decide_unpack _). vm_compute. exact I.
  - intros h Hh. vm_compute in Hh.
    destruct Hh as [<-|[<-|[]]]; split; reflexivity.
Defined.

Lemma X11_witness :
  valid_sizing 12 2 4 /\ (12 - 4) mod 4 = 0 /\
  exists f0 log f,
    construct 12 2 4 0 = Some f0 /\
    run (H := murmur)
      [Add (le32 2); TestAndAdd (le32 4); TestAndRemove (le32 6); Reset]
      f0 = Some (log, f).
Proof.
  assert (V : valid_sizing 12 2 4) by (unfold valid_sizing; lia).
  split; [exact V|]. split; [reflexivity|].
  apply (X11_calls_defined_when_r_divides_m (H := murmur) 12 2 4 0
           [Add (le32 2); TestAndAdd (le32 4); TestAndRemove (le32 6); Reset]
           V eq_refl).
Defined.

Lemma X12_witness :
  exists log f,
    run (H := murmur) [Add (le32 2); Add (le32 4); Add (le32 6)]
      (test_cpp_filter 0) = Some (log, f) /\
    0 <= 2 < k f /\
    flag_lookup_undefined (H := murmur) f (slot (H := murmur) f (le32 4) 2) /\
    test (H := murmur) (le32 4) f = Some (true, f) /\
    testAndRemove (H := murmur) (le32 4) f = None /\
    add (H := murmur) (le32 4) f = None /\
    testAndAdd (H := murmur) (le32 4) f = None.
Proof.
  eexists. eexists. split; [vm_compute; reflexivity|].
  match goal with |- _ /\ flag_lookup_undefined ?f ?h /\ _ =>
    assert (Hi : 0 <= 2 < k f) by (simpl; lia);
    assert (U : flag_lookup_undefined (H := murmur) f h)
      by (right; vm_compute; reflexivity);
    assert (T : test (H := murmur) (le32 4) f = Some (true, f))
      by (vm_compute; reflexivity);
    pose proof (X12_flag_lookup_out_of_range_is_undefined (H := murmur)
                  (le32 4) f 2 Hi U) as (Hr & Ha)
  end.
  split; [exact Hi|]. split; [exact U|]. split; [exact T|].
  split; [exact (Hr T)|]. apply Ha. vm_compute. reflexivity.
Defined.

Lemma X13_witness :
  valid_sizing 12 2 7 /\ 12 - 7 < 7 /\
  exists f0, construct 12 2 7 0 = Some f0 /\ regionSize f0 = 0 /\
             run (H := murmur) [Add (le32 2); Add (le32 2)] f0 = None.
Proof.
  assert (V : valid_sizing 12 2 7) by (unfold valid_sizing; lia).
  split; [exact V|]. split; [lia|].
  apply (X13_second_add_undefined_when_regionSize_is_zero (H := murmur)
           12 2 7 0 (le32 2) V). lia.
Defined.

Lemma X14_witness :
  valid_sizing 614 4 128 /\
  construct 614 4 128 0 = Some (test_cpp_filter 0) /\
  exists log f,
    run (H := murmur) [Add (le32 2); Add (le32 4); Add (le32 6)]
      (test_cpp_filter 0) = Some (log, f) /\
    exists b, test (H := murmur) (le32 4) f = Some (b, f).
Proof.
  assert (V : valid_sizing 614 4 128) by (unfold valid_sizing; lia).
  split; [exact V|]. split; [reflexivity|].
  eexists. eexists. split; [vm_compute; reflexivity|].
  eapply (X14_test_defined_on_valid_sizing (H := murmur) 614 4 128 0
            (test_cpp_filter 0) [Add (le32 2); Add (le32 4); Add (le32 6)]
            _ _ (le32 4) V eq_refl).
  vm_compute. reflexivity.
Defined.

Lemma X15_witness :
  0 < 12 < 2 ^ 32 /\ 0 < 2 /\
  exists f0, construct 12 2 12 0 = Some f0 /\ m f0 = 0 /\
    test (H := murmur) (le32 2) f0 = None /\
    add (H := murmur) (le32 2) f0 = None /\
    testAndAdd (H := murmur) (le32 2) f0 = None /\
    testAndRemove (H := murmur) (le32 2) f0 = None.
Proof.
  split; [lia|]. split; [lia|].
  apply (X15_no_membership_bits_makes_calls_undefined (H := murmur) 2 12 0
           (le32 2)); lia.
Defined.
